(** * cert01 chaincode: certificate records on a key/value ledger

    A shallow embedding of [chaincode/cert01/my.go] and the proofs of its
    specification.  The chaincode is written against the interface
    [shim.ChaincodeStubInterface]; the ledger behind that interface is
    modelled as an explicit [World] that every stub call transforms. *)

From Stdlib Require Import ZArith Lia Ascii String DecimalString DecimalPos DecimalZ.
From stdpp Require Import gmap strings list fin_maps.

Local Open Scope Z_scope.

(** ** Go values *)

(** A Go [string] and a Go [[]byte] are both sequences of 8-bit bytes;
    [string] (a list of [ascii]) represents both.  A [nil] byte slice is
    [None]. *)
Abbreviation bytes := string (only parsing).

(** Go's [error]: only [err.Error()] is ever observed. *)
Abbreviation error := string (only parsing).

(** A Go result pair [(v, err)]: [err != nil] is [Err], otherwise [Ok]. *)
Inductive result (A : Type) : Type :=
| Ok (a : A)
| Err (err : error).
Arguments Ok {A} a.
Arguments Err {A} err.

(** Characters that a Rocq string literal cannot hold directly. *)
Definition dq : string := String "034"%char EmptyString.  (* the double quote *)
Definition nl : string := String "010"%char EmptyString.  (* \n *)
Definition nul : string := String "000"%char EmptyString. (* 0x00 *)
Definition bsl : string := String "092"%char EmptyString. (* the backslash *)

Definition byteOf (c : ascii) : Z := Z.of_N (N_of_ascii c).

(** [len(s)] *)
Definition len (s : string) : Z := Z.of_nat (String.length s).

(** ** The parts of Go's standard library the chaincode calls *)

Module strings.

(** [c < utf8.RuneSelf] for every byte *)
Fixpoint isASCII (s : string) : bool :=
  match s with
  | EmptyString => true
  | String c r => (byteOf c <? 128) && isASCII r
  end.

(** ['A' <= c && c <= 'Z'] gives [c + ('a' - 'A')] *)
Definition lowerByte (c : ascii) : ascii :=
  if (65 <=? byteOf c) && (byteOf c <=? 90)
  then ascii_of_N (N_of_ascii c + 32)
  else c.

Fixpoint mapBytes (f : ascii -> ascii) (s : string) : string :=
  match s with
  | EmptyString => EmptyString
  | String c r => String (f c) (mapBytes f r)
  end.

(** [strings.ToLower]: ASCII-only strings are lowered byte by byte;
    anything else goes through [strings.Map(unicode.ToLower, s)], which
    needs the Unicode case tables and is left to [unicodeLower]. *)
Definition ToLower (unicodeLower : string -> string) (s : string) : string :=
  if isASCII s then mapBytes lowerByte s else unicodeLower s.

End strings.

Module strconv.

(** Go's [int] on the 64-bit platforms the peer runs on. *)
Definition intSize : Z := 64.
Definition maxInt : Z := 2 ^ (intSize - 1) - 1.
Definition minInt : Z := - 2 ^ (intSize - 1).

Definition digitOf (c : ascii) : option Z :=
  if (48 <=? byteOf c) && (byteOf c <=? 57) then Some (byteOf c - 48) else None.

(** [n = n*10 + int(ch)] over the digits; [None] is a syntax error. *)
Fixpoint parseDigits (n : Z) (s : string) : option Z :=
  match s with
  | EmptyString => Some n
  | String ch r =>
      match digitOf ch with
      | Some d => parseDigits (n * 10 + d) r
      | None => None
      end
  end.

(** [strconv.Atoi]: an optional sign, one or more decimal digits, and a
    value that fits [int].  The text of the error is never used by the
    chaincode. *)
Definition Atoi (s : string) : result Z :=
  let '(neg, body) :=
    match s with
    | String c r =>
        if Ascii.eqb c "-"%char then (true, r)
        else if Ascii.eqb c "+"%char then (false, r)
        else (false, s)
    | EmptyString => (false, s)
    end in
  match body with
  | EmptyString => Err "invalid syntax"
  | _ =>
      match parseDigits 0 body with
      | None => Err "invalid syntax"
      | Some un =>
          let n := if neg then - un else un in
          if (minInt <=? n) && (n <=? maxInt)
          then Ok n
          else Err "value out of range"
      end
  end.

(** Decimal rendering of an [int], as [encoding/json] writes it. *)
Definition Itoa (n : Z) : string := NilZero.string_of_int (Z.to_int n).

End strconv.

(** ** The peer behind [shim.ChaincodeStubInterface] *)

(** [queryresult.KV]: one element of a query result. *)
Record KV := mkKV { Key : string; Value : bytes }.

(** The pure functions that the chaincode takes from outside its own source
    and that are left open here: the Unicode branch of [strings.ToLower], the
    string encoder of [encoding/json], the composite-key encoding of the
    stub ([stub.CreateCompositeKey]) and the evaluation of a rich (selector)
    query over the current state. *)
Class Platform := {
  unicodeLower : string -> string;
  encodeString : string -> string;
  CreateCompositeKey : string -> list string -> result string;
  runQuery : string -> gmap string string -> list KV
}.

(** The calls that reach the peer, in the order they are made. *)
Inductive Event :=
| EvGetState (key : string)
| EvPutState (key : string) (value : bytes)
| EvGetQueryResult (query : string)
| EvNext (handle : nat)
| EvClose (handle : nat).

(** The world the chaincode runs in.  As in the specification, the store is
    a plain key/value store: a write takes effect when it is made, and no
    transaction surrounds an invocation.
    - [ledger]: the key/value state;
    - [script]: the outcome of the coming fallible calls, one entry per call
      ([Some err]: that call fails with [err]); once exhausted, calls succeed;
    - [journal]: the calls made so far;
    - [cursors]: the query iterators that are open;
    - [stdout]: what [fmt] has printed. *)
Record World := mkWorld {
  ledger : gmap string string;
  script : list (option error);
  journal : list Event;
  cursors : gset nat;
  stdout : list string
}.

Definition record (e : Event) (w : World) : World :=
  mkWorld (ledger w) (script w) (journal w ++ [e]) (cursors w) (stdout w).

(** The outcome the peer has in store for the call being made. *)
Definition fault (w : World) : option error * World :=
  match script w with
  | [] => (None, w)
  | f :: rest => (f, mkWorld (ledger w) rest (journal w) (cursors w) (stdout w))
  end.

Definition setLedger (m : gmap string string) (w : World) : World :=
  mkWorld m (script w) (journal w) (cursors w) (stdout w).

Definition setCursors (c : gset nat) (w : World) : World :=
  mkWorld (ledger w) (script w) (journal w) c (stdout w).

(** [fmt.Println] and [fmt.Printf] *)
Definition Print (s : string) (w : World) : World :=
  mkWorld (ledger w) (script w) (journal w) (cursors w) (stdout w ++ [s]).

Definition Println (s : string) (w : World) : World := Print (s +:+ nl) w.

(** [stub.GetState]: a missing key reads as [nil]. *)
Definition GetState (key : string) (w : World) : result (option bytes) * World :=
  let '(f, w) := fault (record (EvGetState key) w) in
  match f with
  | Some err => (Err err, w)
  | None => (Ok (ledger w !! key), w)
  end.

(** The state once [value] is written under [key]: writing an empty value
    removes the key. *)
Definition put (key : string) (value : bytes) (m : gmap string string)
  : gmap string string :=
  match value with
  | EmptyString => delete key m
  | _ => <[key := value]> m
  end.

(** [stub.PutState] *)
Definition PutState (key : string) (value : bytes) (w : World) : option error * World :=
  let '(f, w) := fault (record (EvPutState key value) w) in
  match f with
  | Some err => (Some err, w)
  | None => (None, setLedger (put key value (ledger w)) w)
  end.

(** [shim.StateQueryIteratorInterface]: the results still to deliver, and the
    handle under which the peer keeps the iterator open. *)
Record StateQueryIterator := mkIter { handle : nat; pending : list KV }.

Definition HasNext (it : StateQueryIterator) : bool :=
  match pending it with [] => false | _ :: _ => true end.

Section Stub.
Context {P : Platform}.

(** [stub.GetQueryResult] *)
Definition GetQueryResult (query : string) (w : World)
  : result StateQueryIterator * World :=
  let '(f, w) := fault (record (EvGetQueryResult query) w) in
  match f with
  | Some err => (Err err, w)
  | None =>
      let h := fresh (cursors w) in
      (Ok (mkIter h (runQuery query (ledger w))),
       setCursors ({[h]} ∪ cursors w) w)
  end.

End Stub.

(** [resultsIterator.Next()] when [kv] is the first pending result. *)
Definition Next (h : nat) (kv : KV) (w : World) : result KV * World :=
  let '(f, w) := fault (record (EvNext h) w) in
  match f with
  | Some err => (Err err, w)
  | None => (Ok kv, w)
  end.

(** [resultsIterator.Close()]; the [error] it returns, which [defer] drops,
    is left out. *)
Definition Close (it : StateQueryIterator) (w : World) : World :=
  let w := record (EvClose (handle it)) w in
  setCursors (cursors w ∖ {[handle it]}) w.

(** [pb.Response] with [shim.Success] and [shim.Error] *)
Record Response := mkResponse {
  Status : Z;
  Message : string;
  Payload : option bytes
}.

Definition OK : Z := 200.
Definition ERROR : Z := 500.

Definition shim_Success (payload : option bytes) : Response :=
  mkResponse OK "" payload.

Definition shim_Error (msg : string) : Response :=
  mkResponse ERROR msg None.

(** ** The chaincode *)

(** [type student struct], with its JSON field names. *)
Record student := mkStudent {
  ObjectType : string;  (* `json:"docType"` *)
  Cert : string;        (* `json:"cert"` *)
  Degree : string;      (* `json:"degree"` *)
  ID : Z;               (* `json:"iD"` *)
  Owner : string        (* `json:"owner"` *)
}.

(** A JSON member name followed by its colon. *)
Definition member (name : string) : string := dq +:+ name +:+ dq +:+ ":".

Section Chaincode.
Context {P : Platform}.

Definition ToLower : string -> string := strings.ToLower unicodeLower.

(** [json.Marshal] of a [student]: one object, the members in the order of
    the struct fields and under the names of their tags, strings through
    the string encoder and the [int] in decimal.  It cannot fail on this
    type. *)
Definition document (s : student) : bytes :=
  "{" +:+ member "docType" +:+ encodeString (ObjectType s) +:+
  "," +:+ member "cert" +:+ encodeString (Cert s) +:+
  "," +:+ member "degree" +:+ encodeString (Degree s) +:+
  "," +:+ member "iD" +:+ strconv.Itoa (ID s) +:+
  "," +:+ member "owner" +:+ encodeString (Owner s) +:+ "}".

Definition json_Marshal (s : student) : result bytes := Ok (document s).

Definition initCert (args : list string) (w : World) : Response * World :=
  if negb (Z.of_nat (length args) =? 4) then
    (shim_Error "Incorrect number of arguments. Expecting 4", w)
  else
  (* ==== Input sanitation ==== *)
  let w := Println "- start init student" w in
  if len (nth 0 args "") <=? 0 then
    (shim_Error "1st argument must be a non-empty string", w)
  else if len (nth 1 args "") <=? 0 then
    (shim_Error "2nd argument must be a non-empty string", w)
  else if len (nth 2 args "") <=? 0 then
    (shim_Error "3rd argument must be a non-empty string", w)
  else if len (nth 3 args "") <=? 0 then
    (shim_Error "4th argument must be a non-empty string", w)
  else
  let studentcert := nth 0 args "" in
  let degree := ToLower (nth 1 args "") in
  let owner := ToLower (nth 3 args "") in
  match strconv.Atoi (nth 2 args "") with
  | Err _ => (shim_Error "3rd argument must be a numeric string", w)
  | Ok iD =>
  (* ==== Check if student already exists ==== *)
  let '(got, w) := GetState studentcert w in
  match got with
  | Err err => (shim_Error ("Failed to get student: " +:+ err), w)
  | Ok (Some _) =>
      let w := Println ("This student already exists: " +:+ studentcert) w in
      (shim_Error ("This student already exists: " +:+ studentcert), w)
  | Ok None =>
  (* ==== Create student object and marshal to JSON ==== *)
  let objectType := "student" in
  let student := mkStudent objectType studentcert degree iD owner in
  match json_Marshal student with
  | Err err => (shim_Error err, w)
  | Ok studentJSONasBytes =>
  (* === Save student to state === *)
  let '(err, w) := PutState studentcert studentJSONasBytes w in
  match err with
  | Some err => (shim_Error err, w)
  | None =>
  (* ==== Index the student ==== *)
  let indexName := "degree~name" in
  match CreateCompositeKey indexName [Degree student; Cert student] with
  | Err err => (shim_Error err, w)
  | Ok colorNameIndexKey =>
  let value := nul in
  let '(_, w) := PutState colorNameIndexKey value w in
  (* ==== Student saved and indexed. Return success ==== *)
  let w := Println "- end init student" w in
  (shim_Success None, w)
  end end end end end.

Definition readCert (args : list string) (w : World) : Response * World :=
  if negb (Z.of_nat (length args) =? 1) then
    (shim_Error "Incorrect number of arguments. Expecting cert of the student to query", w)
  else
  let cert := nth 0 args "" in
  let '(got, w) := GetState cert w in
  match got with
  | Err _ =>
      let jsonResp := "{" +:+ dq +:+ "Error" +:+ dq +:+ ":" +:+ dq +:+
                      "Failed to get state for " +:+ cert +:+ dq +:+ "}" in
      (shim_Error jsonResp, w)
  | Ok None =>
      let jsonResp := "{" +:+ dq +:+ "Error" +:+ dq +:+ ":" +:+ dq +:+
                      "student does not exist: " +:+ cert +:+ dq +:+ "}" in
      (shim_Error jsonResp, w)
  | Ok (Some valAsbytes) => (shim_Success (Some valAsbytes), w)
  end.

(** The loop [for resultsIterator.HasNext() { ... }] over the iterator with
    handle [h] and results [pending]: one round per pending result, left
    early when [Next] fails. *)
Fixpoint forHasNext (h : nat) (pending : list KV) (buffer : string)
    (bArrayMemberAlreadyWritten : bool) (w : World) : result string * World :=
  match pending with
  | [] => (* HasNext() is false *) (Ok buffer, w)
  | kv :: rest =>
      (* HasNext() is true: Next() delivers [kv], [rest] stays pending *)
      let '(next, w) := Next h kv w in
      match next with
      | Err err => (Err err, w)
      | Ok queryResponse =>
          (* Add a comma before array members, suppress it for the first *)
          let buffer := if bArrayMemberAlreadyWritten
                        then buffer +:+ "," else buffer in
          let buffer := buffer +:+ ("{" +:+ dq +:+ "Key" +:+ dq +:+ ":") in
          let buffer := buffer +:+ dq in
          let buffer := buffer +:+ Key queryResponse in
          let buffer := buffer +:+ dq in
          let buffer := buffer +:+ (", " +:+ dq +:+ "Record" +:+ dq +:+ ":") in
          (* Record is a JSON object, so we write as-is *)
          let buffer := buffer +:+ Value queryResponse in
          let buffer := buffer +:+ "}" in
          forHasNext h rest buffer true w
      end
  end.

Definition getQueryResultForQueryString (queryString : string) (w : World)
  : result bytes * World :=
  let w := Print ("- getQueryResultForQueryString queryString:" +:+ nl +:+
                  queryString +:+ nl) w in
  let '(opened, w) := GetQueryResult queryString w in
  match opened with
  | Err err => (Err err, w)
  | Ok resultsIterator =>
      (* defer resultsIterator.Close(): runs when the body below returns *)
      let '(ret, w) :=
        (* buffer is a JSON array containing QueryRecords *)
        let buffer := "[" in
        let '(looped, w) :=
          forHasNext (handle resultsIterator) (pending resultsIterator)
                     buffer false w in
        match looped with
        | Err err => (Err err, w)
        | Ok buffer =>
            let buffer := buffer +:+ "]" in
            let w := Print ("- getQueryResultForQueryString queryResult:" +:+
                            nl +:+ buffer +:+ nl) w in
            (Ok buffer, w)
        end in
      (ret, Close resultsIterator w)
  end.

(** The selector that [fmt.Sprintf] builds. *)
Definition selector (owner : string) : string :=
  "{" +:+ dq +:+ "selector" +:+ dq +:+ ":{" +:+ dq +:+ "docType" +:+ dq +:+
  ":" +:+ dq +:+ "student" +:+ dq +:+ "," +:+ dq +:+ "owner" +:+ dq +:+ ":" +:+
  dq +:+ owner +:+ dq +:+ "}}".

Definition queryCertByOwner (args : list string) (w : World) : Response * World :=
  if Z.of_nat (length args) <? 1 then
    (shim_Error "Incorrect number of arguments. Expecting 1", w)
  else
  let owner := ToLower (nth 0 args "") in
  let queryString := selector owner in
  let '(queryResults, w) := getQueryResultForQueryString queryString w in
  match queryResults with
  | Err err => (shim_Error err, w)
  | Ok queryResults => (shim_Success (Some queryResults), w)
  end.

Definition Init (w : World) : Response * World := (shim_Success None, w).

Definition Invoke (function : string) (args : list string) (w : World)
  : Response * World :=
  let w := Println ("invoke is running " +:+ function) w in
  if String.eqb function "initCert" then initCert args w
  else if String.eqb function "readCert" then readCert args w
  else if String.eqb function "queryCertByOwner" then queryCertByOwner args w
  else
    let w := Println ("invoke did not find func: " +:+ function) w in
    (shim_Error "Received unknown function invocation", w).

End Chaincode.

(** ** A reference platform

    One concrete [Platform], used to run the chaincode on examples: the
    composite keys of the Fabric shim, a JSON string encoder for ASCII text,
    and a small selector engine that understands the one query the chaincode
    issues. *)

Module Fabric.

Definition cont (b : Z) : bool := (128 <=? b) && (b <=? 191).

(** [validateCompositeKeyAttribute]: the bytes must be valid UTF-8 and
    contain neither U+0000 nor U+10FFFF. *)
Fixpoint validRunes (bs : list Z) : bool :=
  match bs with
  | [] => true
  | b0 :: t0 =>
      if b0 <? 128 then negb (b0 =? 0) && validRunes t0
      else
        match t0 with
        | [] => false
        | b1 :: t1 =>
            if (194 <=? b0) && (b0 <=? 223) then cont b1 && validRunes t1
            else
              match t1 with
              | [] => false
              | b2 :: t2 =>
                  if (224 <=? b0) && (b0 <=? 239) then
                    (if b0 =? 224 then (160 <=? b1) && (b1 <=? 191)
                     else if b0 =? 237 then (128 <=? b1) && (b1 <=? 159)
                     else cont b1)
                    && cont b2 && validRunes t2
                  else
                    match t2 with
                    | [] => false
                    | b3 :: t3 =>
                        if (240 <=? b0) && (b0 <=? 244) then
                          (if b0 =? 240 then (144 <=? b1) && (b1 <=? 191)
                           else if b0 =? 244 then (128 <=? b1) && (b1 <=? 143)
                           else cont b1)
                          && cont b2 && cont b3
                          && negb ((b0 =? 244) && (b1 =? 143) &&
                                   (b2 =? 191) && (b3 =? 191))
                          && validRunes t3
                        else false
                    end
              end
        end
  end.

Definition validateCompositeKeyAttribute (s : string) : bool :=
  validRunes (map byteOf (list_ascii_of_string s)).

(** [compositeKeyNamespace + objectType + U+0000], then every attribute
    followed by U+0000. *)
Fixpoint joinAttributes (ck : string) (attributes : list string) : result string :=
  match attributes with
  | [] => Ok ck
  | att :: rest =>
      if validateCompositeKeyAttribute att
      then joinAttributes (ck +:+ att +:+ nul) rest
      else Err "invalid composite key attribute"
  end.

Definition createCompositeKey (objectType : string) (attributes : list string)
  : result string :=
  if validateCompositeKeyAttribute objectType
  then joinAttributes (nul +:+ objectType +:+ nul) attributes
  else Err "invalid composite key attribute".

Definition hexDigit (n : Z) : string :=
  match String.get (Z.to_nat n) "0123456789abcdef" with
  | Some c => String c EmptyString
  | None => EmptyString
  end.

(** The escapes of [encoding/json] for one byte of ASCII text. *)
Definition escapeByte (c : ascii) : string :=
  let b := byteOf c in
  if b =? 34 then bsl +:+ dq
  else if b =? 92 then bsl +:+ bsl
  else if b =? 10 then bsl +:+ "n"
  else if b =? 13 then bsl +:+ "r"
  else if b =? 9 then bsl +:+ "t"
  else if (b <? 32) || (b =? 60) || (b =? 62) || (b =? 38)
  then bsl +:+ "u00" +:+ hexDigit (b / 16) +:+ hexDigit (b mod 16)
  else String c EmptyString.

Fixpoint escapeBytes (s : string) : string :=
  match s with
  | EmptyString => EmptyString
  | String c r => escapeByte c +:+ escapeBytes r
  end.

Definition quoteString (s : string) : string := dq +:+ escapeBytes s +:+ dq.

Fixpoint stripPrefix (p s : string) : option string :=
  match p, s with
  | EmptyString, _ => Some s
  | String a p', String b s' => if Ascii.eqb a b then stripPrefix p' s' else None
  | String _ _, EmptyString => None
  end.

Fixpoint contains (needle s : string) : bool :=
  match stripPrefix needle s with
  | Some _ => true
  | None => match s with
            | EmptyString => false
            | String _ r => contains needle r
            end
  end.

(** Does the stored document [doc] satisfy the selector [query]?  Only
    selectors on [docType = student] and [owner] are understood. *)
Definition selects (query doc : string) : bool :=
  match stripPrefix ("{" +:+ dq +:+ "selector" +:+ dq +:+ ":{" +:+
                     member "docType" +:+ dq +:+ "student" +:+ dq +:+ "," +:+
                     member "owner") query with
  | None => false
  | Some tail =>
      contains (member "docType" +:+ dq +:+ "student" +:+ dq) doc &&
      contains (member "owner" +:+
                String.substring 0 (String.length tail - 2) tail) doc
  end.

Definition query (q : string) (state : gmap string string) : list KV :=
  map (fun kv => mkKV kv.1 kv.2)
      (List.filter (fun kv => selects q kv.2) (map_to_list state)).

(** Non-ASCII text is left as it is: the Unicode case tables are not
    part of this development. *)
Definition platform : Platform := {|
  unicodeLower := fun s => s;
  encodeString := quoteString;
  CreateCompositeKey := createCompositeKey;
  runQuery := query
|}.

(** A working peer with an empty ledger. *)
Definition genesis : World := mkWorld ∅ [] [] ∅ [].

(** The same peer, told how its coming calls end. *)
Definition scripted (s : list (option error)) : World := mkWorld ∅ s [] ∅ [].

End Fabric.

(** ** Vocabulary of the specification *)

(** How the next fallible call ends. *)
Definition outcome (w : World) : option error :=
  match script w with
  | [] => None
  | f :: _ => f
  end.

(** The next [n] fallible calls all succeed. *)
Definition calm (n : nat) (w : World) : Prop :=
  Forall (fun f => f = None) (take n (script w)).

(** The world once call [e] has been made and its outcome consumed. *)
Definition advance (e : Event) (w : World) : World :=
  mkWorld (ledger w) (tail (script w)) (journal w ++ [e]) (cursors w) (stdout w).

(** Nothing behind the stub was touched between [w] and [w']: no call was
    made, no outcome consumed, no key written, no iterator opened. *)
Definition untouched (w w' : World) : Prop :=
  ledger w' = ledger w ∧ script w' = script w ∧
  journal w' = journal w ∧ cursors w' = cursors w.

Definition isPut (e : Event) : bool :=
  match e with EvPutState _ _ => true | _ => false end.

(** The number of store writes ([PutState] calls) in a journal. *)
Definition writes (j : list Event) : nat := length (List.filter isPut j).

(** How the error messages name an argument position. *)
Definition ordinal (i : nat) : string := nth i ["1st"; "2nd"; "3rd"; "4th"] "".

(** How the [i]-th of the coming fallible calls ends, counting from 0. *)
Definition outcomeAt (i : nat) (w : World) : option error :=
  default None (script w !! i).

(** Create is turned down before it writes: the argument count is wrong, an
    argument is empty, the third one is not a number, the lookup of the key
    fails, or the key is taken. *)
Definition rejected (args : list string) (w : World) : Prop :=
  length args ≠ 4%nat
  ∨ (∃ i, (i < 4)%nat ∧ nth i args "" = "")
  ∨ (∀ n, strconv.Atoi (nth 2 args "") ≠ Ok n)
  ∨ (∃ err, outcome w = Some err)
  ∨ is_Some (ledger w !! nth 0 args "").

(** The index entry of ([degree], [cert]) is in the ledger. *)
Definition indexed {P : Platform} (w : World) (degree cert : string) : Prop :=
  ∃ k, CreateCompositeKey "degree~name" [degree; cert] = Ok k
       ∧ is_Some (ledger w !! k).

(** A record is stored under [cert]. *)
Definition primary (w : World) (cert : string) : Prop := is_Some (ledger w !! cert).

(** The index entry is there exactly when the record is. *)
Definition inStep {P : Platform} (w : World) (degree cert : string) : Prop :=
  indexed w degree cert ↔ primary w cert.

(** *** Query results *)

(** One element of the array, as the loop writes it. *)
Definition element (kv : KV) : string :=
  "{" +:+ dq +:+ "Key" +:+ dq +:+ ":" +:+ dq +:+ Key kv +:+ dq +:+
  ", " +:+ dq +:+ "Record" +:+ dq +:+ ":" +:+ Value kv +:+ "}".

(** The texts of [l] with a comma between any two of them. *)
Fixpoint commaJoin (l : list string) : string :=
  match l with
  | [] => ""
  | [x] => x
  | x :: r => x +:+ "," +:+ commaJoin r
  end.

(** What the loop appends to its buffer over [kvs]. *)
Fixpoint appended (written : bool) (kvs : list KV) : string :=
  match kvs with
  | [] => ""
  | kv :: rest =>
      (if written then "," else "") +:+ element kv +:+ appended true rest
  end.

(** The world after [n] results have been fetched from iterator [h]. *)
Definition fetched (h : nat) (n : nat) (w : World) : World :=
  Nat.iter n (advance (EvNext h)) w.

(** *** JSON texts

    The grammar of RFC 8259, on the bytes of a text in UTF-8: the literals,
    numbers with fraction and exponent, strings with their escapes, arrays
    and objects, and blanks wherever the grammar allows them. *)

Definition isBlank (c : ascii) : bool :=
  (byteOf c =? 32) || (byteOf c =? 9) || (byteOf c =? 10) || (byteOf c =? 13).

Fixpoint blank (s : string) : bool :=
  match s with
  | EmptyString => true
  | String c r => isBlank c && blank r
  end.

Definition isDigit (c : ascii) : bool := (48 <=? byteOf c) && (byteOf c <=? 57).

Definition isHex (b : Z) : bool :=
  ((48 <=? b) && (b <=? 57)) || ((65 <=? b) && (b <=? 70))
  || ((97 <=? b) && (b <=? 102)).

(** Where the scan of the inside of a string stands: between characters,
    after a backslash, inside the four hex digits of [\u], or inside a
    character of several bytes, with the range of its next byte. *)
Inductive Scan :=
| Between
| Escaped
| Hex (left : nat)
| Tail (left : nat) (lo hi : Z).

(** The inside of a JSON string: no quote, no control character, a
    backslash only as the start of an escape, and well-formed UTF-8. *)
Fixpoint scan (st : Scan) (bs : list Z) : bool :=
  match bs with
  | [] => match st with Between => true | _ => false end
  | b :: r =>
      match st with
      | Between =>
          if b =? 34 then false
          else if b =? 92 then scan Escaped r
          else if b <? 32 then false
          else if b <? 128 then scan Between r
          else if (194 <=? b) && (b <=? 223) then scan (Tail 1 128 191) r
          else if b =? 224 then scan (Tail 2 160 191) r
          else if b =? 237 then scan (Tail 2 128 159) r
          else if (225 <=? b) && (b <=? 239) then scan (Tail 2 128 191) r
          else if b =? 240 then scan (Tail 3 144 191) r
          else if b =? 244 then scan (Tail 3 128 143) r
          else if (241 <=? b) && (b <=? 243) then scan (Tail 3 128 191) r
          else false
      | Escaped =>
          if (b =? 34) || (b =? 92) || (b =? 47) || (b =? 98) || (b =? 102)
             || (b =? 110) || (b =? 114) || (b =? 116)
          then scan Between r
          else if b =? 117 then scan (Hex 4) r
          else false
      | Hex n =>
          isHex b &&
          match n with
          | O => false
          | S O => scan Between r
          | S n => scan (Hex n) r
          end
      | Tail n lo hi =>
          (lo <=? b) && (b <=? hi) &&
          match n with
          | O => false
          | S O => scan Between r
          | S n => scan (Tail n 128 191) r
          end
      end
  end.

Definition characters (s : string) : bool :=
  scan Between (map byteOf (list_ascii_of_string s)).

(** [s] without the digits it starts with. *)
Fixpoint dropDigits (s : string) : string :=
  match s with
  | String c r => if isDigit c then dropDigits r else s
  | EmptyString => s
  end.

(** One digit or more; what follows them. *)
Definition someDigits (s : string) : option string :=
  match s with
  | String c r => if isDigit c then Some (dropDigits r) else None
  | EmptyString => None
  end.

(** [0], or a digit other than 0 and more digits; what follows. *)
Definition intPart (s : string) : option string :=
  match s with
  | String c r =>
      if byteOf c =? 48 then Some r
      else if isDigit c then Some (dropDigits r) else None
  | EmptyString => None
  end.

(** A point and digits, or nothing; what follows. *)
Definition fracPart (s : string) : option string :=
  match s with
  | String c r => if byteOf c =? 46 then someDigits r else Some s
  | EmptyString => Some s
  end.

(** [e] or [E], a sign or none, and digits; or nothing.  What follows. *)
Definition expPart (s : string) : option string :=
  match s with
  | String c r =>
      if (byteOf c =? 101) || (byteOf c =? 69) then
        match r with
        | String c' r' =>
            if (byteOf c' =? 43) || (byteOf c' =? 45) then someDigits r'
            else someDigits r
        | EmptyString => None
        end
      else Some s
  | EmptyString => Some s
  end.

Definition number (s : string) : bool :=
  let unsigned :=
    match s with
    | String c r => if byteOf c =? 45 then r else s
    | EmptyString => s
    end in
  match intPart unsigned with
  | Some s1 =>
      match fracPart s1 with
      | Some s2 =>
          match expPart s2 with
          | Some EmptyString => true
          | _ => false
          end
      | None => false
      end
  | None => false
  end.

#[warnings="-register-all"] Inductive Json : string → Prop :=
| Json_null : Json "null"
| Json_true : Json "true"
| Json_false : Json "false"
| Json_number s : number s = true → Json s
| Json_string s : characters s = true → Json (dq +:+ s +:+ dq)
| Json_array vs : Forall Json vs → Json ("[" +:+ commaJoin vs +:+ "]")
| Json_array_empty a : blank a = true → Json ("[" +:+ a +:+ "]")
| Json_object ms : Forall JsonMember ms → Json ("{" +:+ commaJoin ms +:+ "}")
| Json_object_empty a : blank a = true → Json ("{" +:+ a +:+ "}")
| Json_blank a v b : blank a = true → blank b = true → Json v → Json (a +:+ v +:+ b)
with JsonMember : string → Prop :=
| Json_member a name b v :
    blank a = true → characters name = true → blank b = true → Json v →
    JsonMember (a +:+ dq +:+ name +:+ dq +:+ b +:+ ":" +:+ v).

(** Worlds and texts used in the examples, all on the reference platform. *)
Module Scenario.

#[local] Existing Instance Fabric.platform.

(** The ledger after the certificate of the specification is created on an
    empty one. *)
Definition enrolled : World :=
  (initCert ["as23df"; "ME"; "4674"; "hussein"] Fabric.genesis).2.

Definition husseinRecord : bytes :=
  "{" +:+ dq +:+ "docType" +:+ dq +:+ ":" +:+ dq +:+ "student" +:+ dq +:+
  "," +:+ dq +:+ "cert" +:+ dq +:+ ":" +:+ dq +:+ "as23df" +:+ dq +:+
  "," +:+ dq +:+ "degree" +:+ dq +:+ ":" +:+ dq +:+ "me" +:+ dq +:+
  "," +:+ dq +:+ "iD" +:+ dq +:+ ":4674" +:+
  "," +:+ dq +:+ "owner" +:+ dq +:+ ":" +:+ dq +:+ "hussein" +:+ dq +:+ "}".

Definition husseinIndexKey : string :=
  nul +:+ "degree~name" +:+ nul +:+ "me" +:+ nul +:+ "as23df" +:+ nul.

(** The same ledger behind a peer that accepts a query and then breaks
    off the stream of results. *)
Definition flaky : World :=
  mkWorld (ledger enrolled) [None; Some "stream broken"] [] ∅ [].

(** A peer that fails its third call: for Create, the write of the index
    key. *)
Definition indexless : World :=
  Fabric.scripted [None; None; Some "write refused"].

(** A peer that fails its first call. *)
Definition unreachable : World := Fabric.scripted [Some "peer unreachable"].

(** The ledger once a second certificate is created, whose owner is
    written with an escape by the string encoder. *)
Definition faculty : World :=
  (initCert ["rd01"; "PhD"; "12"; "R&D"] enrolled).2.

Definition labRecord : bytes :=
  "{" +:+ dq +:+ "docType" +:+ dq +:+ ":" +:+ dq +:+ "student" +:+ dq +:+
  "," +:+ dq +:+ "cert" +:+ dq +:+ ":" +:+ dq +:+ "rd01" +:+ dq +:+
  "," +:+ dq +:+ "degree" +:+ dq +:+ ":" +:+ dq +:+ "phd" +:+ dq +:+
  "," +:+ dq +:+ "iD" +:+ dq +:+ ":12" +:+
  "," +:+ dq +:+ "owner" +:+ dq +:+ ":" +:+ dq +:+ "r" +:+ bsl +:+ "u0026d" +:+
  dq +:+ "}".

End Scenario.

(** C5 in the words of the specification: no blank between the two members
    of an element. *)
Definition claimedElement (kv : KV) : string :=
  "{" +:+ dq +:+ "Key" +:+ dq +:+ ":" +:+ dq +:+ Key kv +:+ dq +:+
  "," +:+ dq +:+ "Record" +:+ dq +:+ ":" +:+ Value kv +:+ "}".

Definition claimedArray (kvs : list KV) : string :=
  "[" +:+ commaJoin (map claimedElement kvs) +:+ "]".

(** *** Further vocabulary *)

(** The world with what was printed forgotten: two worlds with the same
    [mute] differ in [stdout] alone. *)
Definition mute (w : World) : World :=
  mkWorld (ledger w) (script w) (journal w) (cursors w) [].

(** Arguments that pass the validation of Create. *)
Definition wellFormed (args : list string) : Prop :=
  length args = 4%nat
  ∧ (∀ i, (i < 4)%nat → nth i args "" ≠ "")
  ∧ ∃ iD, strconv.Atoi (nth 2 args "") = Ok iD.


(** *** Index and records over the whole ledger *)

(** The record of certificate [cert], with degree [degree], is stored under
    its certificateID. *)
Definition stored {P : Platform} (w : World) (cert degree : string) : Prop :=
  ∃ iD owner,
    ledger w !! cert = Some (document (mkStudent "student" cert degree iD owner)).

(** [key] is the index key of some pair of a degree and a certificateID. *)
Definition indexKey {P : Platform} (key : string) : Prop :=
  ∃ degree cert, CreateCompositeKey "degree~name" [degree; cert] = Ok key.

(** Index and records agree over the whole ledger: no index entry is an
    orphan (the record it names is stored, with the degree it names), and no
    index entry is missing (what is stored under any other key is a record,
    and the index entry of its degree and key is there). *)
Definition consistent {P : Platform} (w : World) : Prop :=
  (∀ degree cert, indexed w degree cert → stored w cert degree)
  ∧ (∀ key, is_Some (ledger w !! key) →
       indexKey key ∨ ∃ degree, stored w key degree ∧ indexed w degree key).

(** A Create that stops between its two writes: it passes every check and
    its record is written, and then the index key cannot be built or the
    write of the index key fails. *)
Definition torn {P : Platform} (function : string) (args : list string)
    (w : World) : Prop :=
  function = "initCert" ∧ wellFormed args
  ∧ outcomeAt 0 w = None ∧ ledger w !! nth 0 args "" = None
  ∧ outcomeAt 1 w = None
  ∧ ((∃ err, CreateCompositeKey "degree~name"
               [ToLower (nth 1 args ""); nth 0 args ""] = Err err)
     ∨ (∃ err, outcomeAt 2 w = Some err)).

(** The world after a sequence of invocations, each a verb with its
    arguments. *)
Fixpoint run {P : Platform} (calls : list (string * list string)) (w : World)
  : World :=
  match calls with
  | [] => w
  | (function, args) :: rest => run rest (Invoke function args w).2
  end.

(** No invocation of the sequence is a Create that stops between its two
    writes. *)
Fixpoint intact {P : Platform} (calls : list (string * list string)) (w : World)
  : Prop :=
  match calls with
  | [] => True
  | (function, args) :: rest =>
      ¬ torn function args w ∧ intact rest (Invoke function args w).2
  end.

(** The composite-key encoding can be undone: a key comes from one pair of
    attributes only. *)
Definition keysReversible {P : Platform} : Prop :=
  ∀ d c d' c' k,
    CreateCompositeKey "degree~name" [d; c] = Ok k →
    CreateCompositeKey "degree~name" [d'; c'] = Ok k → d = d' ∧ c = c'.

(** A composite key is never a certificateID that a composite key can be
    built from. *)
Definition keysApart {P : Platform} : Prop :=
  ∀ d c k d' c' k',
    CreateCompositeKey "degree~name" [d; c] = Ok k →
    CreateCompositeKey "degree~name" [d'; c'] = Ok k' → k ≠ c'.

(** [s] holds a zero byte. *)
Definition hasNul (s : string) : Prop := In "000"%char (list_ascii_of_string s).

(** * Proofs *)

(** ** The library and the stub *)

Example Atoi_4674 : strconv.Atoi "4674" = Ok 4674.
Proof. reflexivity. Qed.

Example Atoi_neg : strconv.Atoi "-12" = Ok (-12).
Proof. reflexivity. Qed.

Example Atoi_bad : strconv.Atoi "46x4" = Err "invalid syntax".
Proof. reflexivity. Qed.

Example Atoi_sign_only : strconv.Atoi "+" = Err "invalid syntax".
Proof. reflexivity. Qed.

Example Atoi_range : strconv.Atoi "9223372036854775808" = Err "value out of range".
Proof. reflexivity. Qed.

Example Itoa_4674 : strconv.Itoa 4674 = "4674".
Proof. reflexivity. Qed.

Example ToLower_ME : strings.ToLower id "ME" = "me".
Proof. reflexivity. Qed.

(** *** Parsing and printing an [int] *)

Lemma parseDigits_cons (n : Z) (ch : ascii) (r : string) :
  strconv.parseDigits n (String ch r)
  = match strconv.digitOf ch with
    | Some d => strconv.parseDigits (n * 10 + d) r
    | None => None
    end.
Proof. reflexivity. Qed.

(** Reading the digits of a decimal number with a positive accumulator. *)
Lemma parseDigits_acc (d : Decimal.uint) (acc : positive) :
  strconv.parseDigits (Z.pos acc) (NilEmpty.string_of_uint d)
  = Some (Z.pos (Pos.of_uint_acc d acc)).
Proof.
  revert acc. induction d as [|d IH|d IH|d IH|d IH|d IH|d IH|d IH|d IH|d IH|d IH];
    intros acc; cbn [NilEmpty.string_of_uint Pos.of_uint_acc];
    [reflexivity | rewrite parseDigits_cons ..].
  all: match goal with
       | |- context [strconv.digitOf ?c] =>
           let v := eval vm_compute in (strconv.digitOf c) in
           change (strconv.digitOf c) with v
       end; cbv iota beta.
  all: rewrite <- IH; f_equal; lia.
Qed.

Lemma parseDigits_uint (d : Decimal.uint) :
  strconv.parseDigits 0 (NilEmpty.string_of_uint d) = Some (Z.of_N (Pos.of_uint d)).
Proof.
  induction d as [|d IH|d IH|d IH|d IH|d IH|d IH|d IH|d IH|d IH|d IH];
    cbn [NilEmpty.string_of_uint Pos.of_uint];
    [reflexivity | rewrite parseDigits_cons ..].
  all: match goal with
       | |- context [strconv.digitOf ?c] =>
           let v := eval vm_compute in (strconv.digitOf c) in
           change (strconv.digitOf c) with v
       end; cbv iota beta.
  - exact IH.
  - apply (parseDigits_acc d 1).
  - apply (parseDigits_acc d 2).
  - apply (parseDigits_acc d 3).
  - apply (parseDigits_acc d 4).
  - apply (parseDigits_acc d 5).
  - apply (parseDigits_acc d 6).
  - apply (parseDigits_acc d 7).
  - apply (parseDigits_acc d 8).
  - apply (parseDigits_acc d 9).
Qed.

Lemma parseDigits_positive (p : positive) :
  strconv.parseDigits 0 (NilEmpty.string_of_uint (Pos.to_uint p)) = Some (Z.pos p).
Proof. rewrite parseDigits_uint, DecimalPos.Unsigned.of_to. reflexivity. Qed.

(** The decimal text of a positive number starts with a digit. *)
Lemma string_of_positive (p : positive) :
  ∃ c r, NilEmpty.string_of_uint (Pos.to_uint p) = String c r
         ∧ Ascii.eqb c "-" = false ∧ Ascii.eqb c "+" = false.
Proof.
  pose proof (DecimalPos.Unsigned.to_uint_nonnil p) as Hnil.
  destruct (Pos.to_uint p); [contradiction Hnil; reflexivity | ..];
    cbn [NilEmpty.string_of_uint]; eexists _, _; repeat split.
Qed.

(** Parsing the decimal text of an [int] gives the [int] back. *)
Lemma Atoi_Itoa (n : Z) :
  strconv.minInt ≤ n ≤ strconv.maxInt → strconv.Atoi (strconv.Itoa n) = Ok n.
Proof.
  intros Hn. unfold strconv.Itoa. destruct n as [|p|p].
  - reflexivity.
  - cbn [Z.to_int NilZero.string_of_int].
    pose proof (DecimalPos.Unsigned.to_uint_nonnil p) as Hnil.
    replace (NilZero.string_of_uint (Pos.to_uint p))
      with (NilEmpty.string_of_uint (Pos.to_uint p))
      by (destruct (Pos.to_uint p); [contradiction Hnil|..]; reflexivity).
    pose proof (parseDigits_positive p) as Hp.
    destruct (string_of_positive p) as (c & r & E & Hm & Hpl).
    rewrite E in *. unfold strconv.Atoi. rewrite Hm, Hpl, Hp.
    replace ((strconv.minInt <=? Z.pos p) && (Z.pos p <=? strconv.maxInt)) with true;
      [reflexivity|].
    symmetry. apply andb_true_iff. split; apply Z.leb_le; lia.
  - cbn [Z.to_int NilZero.string_of_int].
    pose proof (DecimalPos.Unsigned.to_uint_nonnil p) as Hnil.
    replace (NilZero.string_of_uint (Pos.to_uint p))
      with (NilEmpty.string_of_uint (Pos.to_uint p))
      by (destruct (Pos.to_uint p); [contradiction Hnil|..]; reflexivity).
    pose proof (parseDigits_positive p) as Hp.
    destruct (string_of_positive p) as (c & r & E & _).
    rewrite E in *. unfold strconv.Atoi.
    change (Ascii.eqb "-" "-") with true. cbv iota beta. rewrite Hp.
    replace ((strconv.minInt <=? - Z.pos p) && (- Z.pos p <=? strconv.maxInt))
      with true; [reflexivity|].
    symmetry. apply andb_true_iff. split; apply Z.leb_le; lia.
Qed.

Lemma Atoi_in_range (s : string) (n : Z) :
  strconv.Atoi s = Ok n → strconv.minInt ≤ n ≤ strconv.maxInt.
Proof.
  unfold strconv.Atoi.
  destruct (match s with
            | String c r => if Ascii.eqb c "-" then (true, r)
                            else if Ascii.eqb c "+" then (false, r) else (false, s)
            | EmptyString => (false, s)
            end) as [neg body].
  destruct body; [discriminate|].
  destruct (strconv.parseDigits 0 _) as [un|]; [|discriminate].
  destruct (_ && _) eqn:E; [|discriminate].
  intros [= <-]. apply andb_true_iff in E. destruct E as [H1 H2].
  apply Z.leb_le in H1, H2. lia.
Qed.

Example composite_key_example :
  Fabric.createCompositeKey "degree~name" ["me"; "as23df"]
  = Ok (nul +:+ "degree~name" +:+ nul +:+ "me" +:+ nul +:+ "as23df" +:+ nul).
Proof. reflexivity. Qed.

Example composite_key_rejects_nul :
  Fabric.createCompositeKey "degree~name" ["me"; "a" +:+ nul +:+ "b"]
  = Err "invalid composite key attribute".
Proof. reflexivity. Qed.

(** *** The stub, call by call *)

Lemma fault_spec (e : Event) (w : World) :
  fault (record e w) = (outcome w, advance e w).
Proof.
  unfold fault, record, outcome, advance; simpl.
  destruct (script w); reflexivity.
Qed.

Lemma GetState_spec (key : string) (w : World) :
  GetState key w =
  (match outcome w with
   | Some err => Err err
   | None => Ok (ledger w !! key)
   end, advance (EvGetState key) w).
Proof.
  unfold GetState. rewrite fault_spec. destruct (outcome w); reflexivity.
Qed.

Lemma PutState_spec (key : string) (value : bytes) (w : World) :
  PutState key value w =
  match outcome w with
  | Some err => (Some err, advance (EvPutState key value) w)
  | None =>
      (None, setLedger (put key value (ledger w)) (advance (EvPutState key value) w))
  end.
Proof.
  unfold PutState. rewrite fault_spec. destruct (outcome w); reflexivity.
Qed.

Lemma Next_spec (h : nat) (kv : KV) (w : World) :
  Next h kv w =
  (match outcome w with Some err => Err err | None => Ok kv end,
   advance (EvNext h) w).
Proof.
  unfold Next. rewrite fault_spec. destruct (outcome w); reflexivity.
Qed.

Lemma put_nonempty (key : string) (c : ascii) (s : string) (m : gmap string string) :
  put key (String c s) m = <[key := String c s]> m.
Proof. reflexivity. Qed.

Lemma put_nul (key : string) (m : gmap string string) :
  put key nul m = <[key := nul]> m.
Proof. reflexivity. Qed.

Lemma untouched_refl (w : World) : untouched w w.
Proof. repeat split. Qed.

Lemma untouched_Print (s : string) (w : World) : untouched w (Print s w).
Proof. repeat split. Qed.

Lemma untouched_Println (s : string) (w : World) : untouched w (Println s w).
Proof. repeat split. Qed.

Lemma len_le_0 (s : string) : (len s <=? 0) = true ↔ s = "".
Proof.
  unfold len. destruct s; simpl.
  - split; [reflexivity | intros _; apply Z.leb_le; lia].
  - split; [intros H%Z.leb_le; lia | discriminate].
Qed.

Lemma len_le_0_false (s : string) : (len s <=? 0) = false ↔ s ≠ "".
Proof.
  rewrite <- len_le_0. destruct (len s <=? 0); split; congruence.
Qed.

Lemma writes_app (j1 j2 : list Event) : writes (j1 ++ j2) = (writes j1 + writes j2)%nat.
Proof. unfold writes. rewrite List.filter_app, length_app. reflexivity. Qed.

Lemma calm_outcome (n : nat) (w : World) : calm (S n) w → outcome w = None.
Proof.
  unfold calm, outcome. destruct (script w) as [|f s]; [reflexivity|].
  simpl. intros H. apply Forall_cons in H. tauto.
Qed.

Lemma calm_advance (n : nat) (e : Event) (w : World) :
  calm (S n) w → calm n (advance e w).
Proof.
  unfold calm, advance; simpl. destruct (script w) as [|f s]; simpl.
  - intros _. rewrite take_nil. constructor.
  - intros H. apply Forall_cons in H. tauto.
Qed.

(** A list of exactly four arguments. *)
Lemma four_args (args : list string) :
  length args = 4%nat →
  args = [nth 0 args ""; nth 1 args ""; nth 2 args ""; nth 3 args ""].
Proof.
  destruct args as [|a0 [|a1 [|a2 [|a3 [|a4 r]]]]]; simpl; try discriminate.
  reflexivity.
Qed.

(** ** Create: validation *)

Section CreateValidation.
Context {P : Platform}.

Lemma initCert_wrong_count (args : list string) (w : World) :
  length args ≠ 4%nat →
  initCert args w = (shim_Error "Incorrect number of arguments. Expecting 4", w).
Proof.
  intros Hn. unfold initCert.
  destruct (Z.of_nat (length args) =? 4) eqn:E; [|reflexivity].
  apply Z.eqb_eq in E. lia.
Qed.

(** Create on four arguments, once the checks on them are spelled out. *)
Lemma initCert_four (a0 a1 a2 a3 : string) (w : World) :
  initCert [a0; a1; a2; a3] w =
  let w := Println "- start init student" w in
  if len a0 <=? 0 then (shim_Error "1st argument must be a non-empty string", w)
  else if len a1 <=? 0 then (shim_Error "2nd argument must be a non-empty string", w)
  else if len a2 <=? 0 then (shim_Error "3rd argument must be a non-empty string", w)
  else if len a3 <=? 0 then (shim_Error "4th argument must be a non-empty string", w)
  else
    match strconv.Atoi a2 with
    | Err _ => (shim_Error "3rd argument must be a numeric string", w)
    | Ok iD =>
        let '(got, w) := GetState a0 w in
        match got with
        | Err err => (shim_Error ("Failed to get student: " +:+ err), w)
        | Ok (Some _) =>
            (shim_Error ("This student already exists: " +:+ a0),
             Println ("This student already exists: " +:+ a0) w)
        | Ok None =>
            let doc := document (mkStudent "student" a0 (ToLower a1) iD (ToLower a3)) in
            let '(err, w) := PutState a0 doc w in
            match err with
            | Some err => (shim_Error err, w)
            | None =>
                match CreateCompositeKey "degree~name" [ToLower a1; a0] with
                | Err err => (shim_Error err, w)
                | Ok k =>
                    let '(_, w) := PutState k nul w in
                    (shim_Success None, Println "- end init student" w)
                end
            end
        end
    end.
Proof. reflexivity. Qed.

Lemma put_document (key : string) (s : student) (m : gmap string string) :
  put key (document s) m = <[key := document s]> m.
Proof. reflexivity. Qed.

End CreateValidation.

(** ** Outcomes of the coming calls *)

Lemma outcomeAt_0 (w : World) : outcomeAt 0 w = outcome w.
Proof. unfold outcomeAt, outcome. destruct (script w); reflexivity. Qed.

Lemma outcomeAt_advance (i : nat) (e : Event) (w : World) :
  outcomeAt i (advance e w) = outcomeAt (S i) w.
Proof.
  unfold outcomeAt, advance; cbn [script].
  destruct (script w); [rewrite !lookup_nil|]; reflexivity.
Qed.

Lemma outcomeAt_Println (i : nat) (s : string) (w : World) :
  outcomeAt i (Println s w) = outcomeAt i w.
Proof. reflexivity. Qed.

Lemma outcome_setLedger (m : gmap string string) (w : World) :
  outcome (setLedger m w) = outcome w.
Proof. reflexivity. Qed.

Lemma calm_outcomeAt (n i : nat) (w : World) :
  calm n w → (i < n)%nat → outcomeAt i w = None.
Proof.
  unfold calm, outcomeAt. intros Hc Hi.
  destruct (script w !! i) as [f|] eqn:E; [|reflexivity].
  rewrite Forall_lookup in Hc. apply (Hc i f).
  rewrite lookup_take_lt by exact Hi. exact E.
Qed.

(** ** Texts and fetches *)

Lemma append_cons (c : ascii) (s1 s2 : string) :
  String c s1 +:+ s2 = String c (s1 +:+ s2).
Proof. reflexivity. Qed.

Lemma append_nil_l (s : string) : "" +:+ s = s.
Proof. reflexivity. Qed.

Lemma append_assoc (s1 s2 s3 : string) : (s1 +:+ s2) +:+ s3 = s1 +:+ s2 +:+ s3.
Proof.
  induction s1 as [|c s1 IH]; [reflexivity|].
  rewrite !append_cons, IH. reflexivity.
Qed.

Lemma append_nil_r (s : string) : s +:+ "" = s.
Proof.
  induction s as [|c s IH]; [reflexivity|].
  rewrite append_cons, IH. reflexivity.
Qed.

Lemma appended_true (kvs : list KV) :
  appended true kvs = match kvs with
                      | [] => ""
                      | _ => "," +:+ commaJoin (map element kvs)
                      end.
Proof.
  induction kvs as [|kv rest IH]; [reflexivity|].
  cbn [appended map commaJoin]. rewrite IH.
  destruct rest as [|kv' rest]; cbn [map].
  - rewrite append_nil_r. reflexivity.
  - reflexivity.
Qed.

Lemma appended_false (kvs : list KV) :
  appended false kvs = commaJoin (map element kvs).
Proof.
  destruct kvs as [|kv rest]; [reflexivity|].
  cbn [appended map commaJoin]. rewrite appended_true.
  destruct rest as [|kv' rest]; cbn [map].
  - apply append_nil_r.
  - reflexivity.
Qed.

Lemma fetched_S (h n : nat) (w : World) :
  fetched h (S n) w = fetched h n (advance (EvNext h) w).
Proof. unfold fetched. apply Nat.iter_succ_r. Qed.

Lemma fetched_world (h n : nat) (w : World) :
  ledger (fetched h n w) = ledger w
  ∧ cursors (fetched h n w) = cursors w
  ∧ stdout (fetched h n w) = stdout w
  ∧ journal (fetched h n w) = journal w ++ repeat (EvNext h) n
  ∧ script (fetched h n w) = drop n (script w).
Proof.
  revert w. induction n as [|n IH]; intros w.
  - cbn. rewrite app_nil_r. repeat split.
  - rewrite fetched_S. destruct (IH (advance (EvNext h) w)) as (Hl & Hc & Ho & Hj & Hs).
    rewrite Hl, Hc, Ho, Hj, Hs. cbn [ledger cursors stdout journal script advance repeat].
    rewrite <- app_assoc. repeat split.
    destruct (script w); simpl; [apply drop_nil | reflexivity].
Qed.

(** ** Create *)

(** Runs Create on four arguments, one case per way through it. *)
Ltac create_cases :=
  rewrite initCert_four; cbv zeta;
  repeat first
    [ rewrite GetState_spec
    | rewrite PutState_spec
    | rewrite put_document
    | rewrite put_nul
    | progress cbn [fst snd ledger script journal cursors stdout advance
                    Println Print setLedger]
    | match goal with
      | |- context [if ?b then _ else _] =>
          match type of b with bool => destruct b eqn:? end
      | |- context [match strconv.Atoi ?s with _ => _ end] =>
          destruct (strconv.Atoi s) eqn:?
      | |- context [match outcome ?w with _ => _ end] =>
          destruct (outcome w) eqn:?
      | |- context [match ?m !! ?k with _ => _ end] =>
          destruct (m !! k) eqn:?
      | |- context [match CreateCompositeKey ?i ?a with _ => _ end] =>
          destruct (CreateCompositeKey i a) eqn:?
      end ].

Section Create.
Context {P : Platform}.

(** ReadByID on one argument. *)
Lemma readCert_one (key : string) (w : World) :
  (readCert [key] w).1 =
  match outcome w with
  | Some _ =>
      shim_Error ("{" +:+ dq +:+ "Error" +:+ dq +:+ ":" +:+ dq +:+
                  "Failed to get state for " +:+ key +:+ dq +:+ "}")
  | None =>
      match ledger w !! key with
      | None =>
          shim_Error ("{" +:+ dq +:+ "Error" +:+ dq +:+ ":" +:+ dq +:+
                      "student does not exist: " +:+ key +:+ dq +:+ "}")
      | Some valAsbytes => shim_Success (Some valAsbytes)
      end
  end.
Proof.
  unfold readCert. cbn [length nth negb Z.of_nat Z.eqb Pos.of_succ_nat Pos.eqb].
  rewrite GetState_spec. destruct (outcome w); [reflexivity|].
  cbn [ledger advance]. destruct (ledger w !! key); reflexivity.
Qed.

Lemma readCert_world (args : list string) (w : World) :
  ledger (readCert args w).2 = ledger w.
Proof.
  unfold readCert. destruct (negb _); [reflexivity|].
  rewrite GetState_spec. destruct (outcome w); [reflexivity|].
  cbn [ledger advance]. destruct (ledger w !! _); reflexivity.
Qed.

Lemma not_rejected (a0 a1 a2 a3 : string) (iD : Z) (w : World) :
  rejected [a0; a1; a2; a3] w →
  (len a0 <=? 0) = false → (len a1 <=? 0) = false →
  (len a2 <=? 0) = false → (len a3 <=? 0) = false →
  strconv.Atoi a2 = Ok iD → outcome w = None → ledger w !! a0 = None → False.
Proof.
  intros [H|[(i & Hi & H)|[H|[(e & H)|H]]]] H0 H1 H2 H3 Hn Ho Hl.
  - apply H. reflexivity.
  - apply len_le_0 in H.
    destruct i as [|[|[|[|i]]]]; simpl in H; try lia; congruence.
  - apply (H iD). exact Hn.
  - congruence.
  - simpl in H. rewrite Hl in H. destruct H; discriminate.
Qed.

(** C3: Create checks the argument count first (any count other than four
    is refused whatever the arguments hold), then that each argument is
    non-empty (the message names the first empty position), then that the
    third one parses as a decimal integer; each refusal is reported before
    the store is accessed. *)
Theorem create_validation_order (args : list string) (w : World) :
  (length args ≠ 4%nat →
     (initCert args w).1 = shim_Error "Incorrect number of arguments. Expecting 4"
     ∧ untouched w (initCert args w).2)
  ∧ (∀ i, length args = 4%nat → (i < 4)%nat → nth i args "" = "" →
       (∀ j, (j < i)%nat → nth j args "" ≠ "") →
       (initCert args w).1
         = shim_Error (ordinal i +:+ " argument must be a non-empty string")
       ∧ untouched w (initCert args w).2)
  ∧ (length args = 4%nat → (∀ i, (i < 4)%nat → nth i args "" ≠ "") →
       (∀ n, strconv.Atoi (nth 2 args "") ≠ Ok n) →
       (initCert args w).1 = shim_Error "3rd argument must be a numeric string"
       ∧ untouched w (initCert args w).2).
Proof.
  split; [|split].
  - intros Hn. rewrite initCert_wrong_count by assumption.
    split; [reflexivity | apply untouched_refl].
  - intros i Hlen Hi Hempty Hfirst.
    assert (Hne : ∀ j, (j < i)%nat → (len (nth j args "") <=? 0) = false).
    { intros j Hj. apply len_le_0_false, Hfirst, Hj. }
    apply len_le_0 in Hempty.
    rewrite (four_args args Hlen), initCert_four. cbv zeta.
    destruct i as [|[|[|[|i]]]]; try lia.
    + rewrite Hempty. split; [reflexivity | apply untouched_Println].
    + rewrite (Hne 0%nat), Hempty by lia.
      split; [reflexivity | apply untouched_Println].
    + rewrite (Hne 0%nat), (Hne 1%nat), Hempty by lia.
      split; [reflexivity | apply untouched_Println].
    + rewrite (Hne 0%nat), (Hne 1%nat), (Hne 2%nat), Hempty by lia.
      split; [reflexivity | apply untouched_Println].
  - intros Hlen Hne Hbad.
    rewrite (four_args args Hlen), initCert_four. cbv zeta.
    rewrite !(proj2 (len_le_0_false _)) by (apply Hne; lia).
    destruct (strconv.Atoi (nth 2 args "")) as [n|e] eqn:E.
    + exfalso. exact (Hbad n eq_refl).
    + split; [reflexivity | apply untouched_Println].
Qed.

(** A Create that is turned down fails, and leaves the ledger and the
    number of writes as they were. *)
Lemma initCert_rejected (args : list string) (w : World) :
  rejected args w →
  Status (initCert args w).1 = ERROR
  ∧ writes (journal (initCert args w).2) = writes (journal w)
  ∧ ledger (initCert args w).2 = ledger w.
Proof.
  destruct (decide (length args = 4%nat)) as [Hlen|Hlen].
  2:{ rewrite initCert_wrong_count by assumption. intros _. repeat split. }
  rewrite (four_args args Hlen). cbn [nth].
  intros Hrej. create_cases.
  all: try (repeat split; rewrite ?writes_app; cbn; lia).
  all: exfalso; eapply not_rejected; eassumption.
Qed.

(** The calls behind a Create that returns success. *)
Lemma initCert_success_journal (args : list string) (w : World) :
  Status (initCert args w).1 = OK →
  ∃ iD k,
    strconv.Atoi (nth 2 args "") = Ok iD
    ∧ CreateCompositeKey "degree~name" [ToLower (nth 1 args ""); nth 0 args ""] = Ok k
    ∧ journal (initCert args w).2
      = journal w ++
        [EvGetState (nth 0 args "");
         EvPutState (nth 0 args "")
           (document (mkStudent "student" (nth 0 args "") (ToLower (nth 1 args ""))
                                iD (ToLower (nth 3 args ""))));
         EvPutState k nul].
Proof.
  destruct (decide (length args = 4%nat)) as [Hlen|Hlen].
  2:{ rewrite initCert_wrong_count by assumption. discriminate. }
  rewrite (four_args args Hlen). cbn [nth].
  create_cases; try discriminate.
  all: intros _; eexists _, _; split; [reflexivity|]; split; [reflexivity|].
  all: rewrite <- !app_assoc; reflexivity.
Qed.

(** C2: a Create that returns success has made exactly two store writes,
    the put of the record under its key and the put of the index key, after
    the one lookup; a Create turned down by validation, by the lookup or by
    the uniqueness check fails without having made any. *)
Theorem create_write_count (args : list string) (w : World) :
  (Status (initCert args w).1 = OK →
     ∃ iD k,
       strconv.Atoi (nth 2 args "") = Ok iD
       ∧ CreateCompositeKey "degree~name" [ToLower (nth 1 args ""); nth 0 args ""]
         = Ok k
       ∧ journal (initCert args w).2
         = journal w ++
           [EvGetState (nth 0 args "");
            EvPutState (nth 0 args "")
              (document (mkStudent "student" (nth 0 args "")
                                   (ToLower (nth 1 args "")) iD
                                   (ToLower (nth 3 args ""))));
            EvPutState k nul]
       ∧ writes (journal (initCert args w).2) = (writes (journal w) + 2)%nat)
  ∧ (rejected args w →
       Status (initCert args w).1 = ERROR
       ∧ writes (journal (initCert args w).2) = writes (journal w)
       ∧ ledger (initCert args w).2 = ledger w).
Proof.
  split.
  - intros Hok.
    destruct (initCert_success_journal args w Hok) as (iD & k & Hn & Hk & Hj).
    exists iD, k. split; [exact Hn|]. split; [exact Hk|]. split; [exact Hj|].
    rewrite Hj, writes_app. reflexivity.
  - apply initCert_rejected.
Qed.

(** C4, as amended: a Create on a certificateID that is already present
    fails and writes nothing, whatever its other arguments, so the store
    stays as it was; when its arguments pass validation and the lookup
    itself does not fail, the failure is the one that reports the
    duplicate. *)
Theorem duplicate_create_rejected (c a1 a2 a3 : string) (w : World) :
  is_Some (ledger w !! c) →
  Status (initCert [c; a1; a2; a3] w).1 = ERROR
  ∧ ledger (initCert [c; a1; a2; a3] w).2 = ledger w
  ∧ writes (journal (initCert [c; a1; a2; a3] w).2) = writes (journal w)
  ∧ (c ≠ "" → a1 ≠ "" → a2 ≠ "" → a3 ≠ "" →
     (∃ n, strconv.Atoi a2 = Ok n) → outcome w = None →
     (initCert [c; a1; a2; a3] w).1
     = shim_Error ("This student already exists: " +:+ c)).
Proof.
  intros Htaken.
  assert (Hrej : rejected [c; a1; a2; a3] w) by (do 4 right; exact Htaken).
  destruct (initCert_rejected [c; a1; a2; a3] w Hrej) as (HS & HW & HL).
  repeat split; try assumption.
  intros H0 H1 H2 H3 [n Hn] Ho.
  apply len_le_0_false in H0, H1, H2, H3.
  destruct Htaken as [v Hv].
  rewrite initCert_four; cbv zeta.
  rewrite H0, H1, H2, H3, Hn, GetState_spec.
  change (outcome (Println "- start init student" w)) with (outcome w).
  rewrite Ho. cbn [ledger advance Println Print]. rewrite Hv. reflexivity.
Qed.

(** C8: when the lookup and the write of the record succeed and the write
    of the index key fails, Create returns success all the same: the error
    of that write is dropped, the record is stored and the index key is
    not. *)
Theorem index_write_error_discarded
    (c d n o : string) (iD : Z) (k : string) (err : error)
    (rest : list (option error)) (w : World) :
  c ≠ "" → d ≠ "" → n ≠ "" → o ≠ "" →
  strconv.Atoi n = Ok iD →
  ledger w !! c = None →
  CreateCompositeKey "degree~name" [ToLower d; c] = Ok k →
  script w = None :: None :: Some err :: rest →
  let doc := document (mkStudent "student" c (ToLower d) iD (ToLower o)) in
  (initCert [c; d; n; o] w).1 = shim_Success None
  ∧ journal (initCert [c; d; n; o] w).2
    = journal w ++ [EvGetState c; EvPutState c doc; EvPutState k nul]
  ∧ ledger (initCert [c; d; n; o] w).2 = <[c := doc]> (ledger w)
  ∧ (k ≠ c → ledger (initCert [c; d; n; o] w).2 !! k = ledger w !! k).
Proof.
  intros H0 H1 H2 H3 Hn Hfresh Hk Hs doc.
  apply len_le_0_false in H0, H1, H2, H3.
  assert (O1 : outcome (Println "- start init student" w) = None)
    by (unfold outcome; cbn [script Println Print]; rewrite Hs; reflexivity).
  assert (O2 : ∀ e, outcome (advance e (Println "- start init student" w)) = None)
    by (intros e; unfold outcome; cbn [script advance Println Print];
        rewrite Hs; reflexivity).
  assert (O3 : ∀ e e' m, outcome (setLedger m (advance e'
                 (advance e (Println "- start init student" w)))) = Some err)
    by (intros e e' m; unfold outcome;
        cbn [script setLedger advance Println Print]; rewrite Hs; reflexivity).
  rewrite initCert_four; cbv zeta.
  rewrite H0, H1, H2, H3, Hn, GetState_spec, O1.
  cbn [ledger advance Println Print]. rewrite Hfresh.
  rewrite PutState_spec, O2, Hk, PutState_spec, O3.
  cbn [fst snd ledger journal advance setLedger Println Print].
  rewrite put_document. fold doc.
  repeat split.
  - rewrite <- !app_assoc. reflexivity.
  - intros Hne. rewrite lookup_insert_ne by congruence. reflexivity.
Qed.

(** What a Create that returns success has done. *)
Lemma initCert_success (c d n o : string) (w : World) :
  Status (initCert [c; d; n; o] w).1 = OK →
  ∃ iD k,
    strconv.Atoi n = Ok iD
    ∧ CreateCompositeKey "degree~name" [ToLower d; c] = Ok k
    ∧ ledger w !! c = None
    ∧ ledger (initCert [c; d; n; o] w).2
      = let doc := document (mkStudent "student" c (ToLower d) iD (ToLower o)) in
        match outcomeAt 2 w with
        | None => <[k := nul]> (<[c := doc]> (ledger w))
        | Some _ => <[c := doc]> (ledger w)
        end.
Proof.
  create_cases; try discriminate.
  all: intros _; eexists _, _; repeat split; try eassumption.
  all: rewrite ?outcome_setLedger, <- ?outcomeAt_0, !outcomeAt_advance,
         ?outcomeAt_Println in *.
  all: cbv zeta; match goal with H : outcomeAt 2 _ = _ |- _ => rewrite H end.
  all: reflexivity.
Qed.

(** C7: after a Create that returns success, a ReadByID of the
    certificateID whose lookup does not fail returns the stored record: one
    JSON object with the members docType (the fixed discriminator), cert (the
    certificateID), degree (lowercased), iD (the integer parsed from the
    third argument) and owner (lowercased), in that order; this needs the
    index key to differ from the certificateID.  The index key built from
    the index name, the lowercased degree and the certificateID is present,
    with the sentinel byte as value, when the write of it did not fail. *)
Theorem create_then_read (c d n o : string) (w : World) :
  Status (initCert [c; d; n; o] w).1 = OK →
  ∃ iD k,
    strconv.Atoi n = Ok iD
    ∧ CreateCompositeKey "degree~name" [ToLower d; c] = Ok k
    ∧ (k ≠ c → outcome (initCert [c; d; n; o] w).2 = None →
       (readCert [c] (initCert [c; d; n; o] w).2).1
       = shim_Success (Some (
           "{" +:+ dq +:+ "docType" +:+ dq +:+ ":" +:+ encodeString "student" +:+
           "," +:+ dq +:+ "cert" +:+ dq +:+ ":" +:+ encodeString c +:+
           "," +:+ dq +:+ "degree" +:+ dq +:+ ":" +:+ encodeString (ToLower d) +:+
           "," +:+ dq +:+ "iD" +:+ dq +:+ ":" +:+ strconv.Itoa iD +:+
           "," +:+ dq +:+ "owner" +:+ dq +:+ ":" +:+ encodeString (ToLower o) +:+
           "}")))
    ∧ (outcomeAt 2 w = None →
       ledger (initCert [c; d; n; o] w).2 !! k = Some nul).
Proof.
  intros Hok.
  destruct (initCert_success c d n o w Hok) as (iD & k & Hn & Hk & Hfresh & Hl).
  cbv zeta in Hl.
  exists iD, k. split; [exact Hn|]. split; [exact Hk|]. split.
  - intros Hne Hread. rewrite readCert_one, Hread, Hl.
    destruct (outcomeAt 2 w).
    + rewrite lookup_insert_eq. reflexivity.
    + rewrite lookup_insert_ne by exact Hne.
      rewrite lookup_insert_eq. reflexivity.
  - intros Hindex. rewrite Hl, Hindex. apply lookup_insert_eq.
Qed.

End Create.

(** ** Query results *)

Section Query.
Context {P : Platform}.

(** The loop is over as soon as [HasNext] says so. *)
Lemma forHasNext_exhausted (it : StateQueryIterator) (buffer : string)
    (written : bool) (w : World) :
  HasNext it = false →
  forHasNext (handle it) (pending it) buffer written w = (Ok buffer, w).
Proof.
  unfold HasNext. destruct (pending it); [reflexivity | discriminate].
Qed.

(** The loop when none of its fetches fails. *)
Lemma forHasNext_calm (h : nat) (kvs : list KV) (buffer : string)
    (written : bool) (w : World) :
  calm (length kvs) w →
  forHasNext h kvs buffer written w
  = (Ok (buffer +:+ appended written kvs), fetched h (length kvs) w).
Proof.
  revert buffer written w.
  induction kvs as [|kv rest IH]; intros buffer written w Hcalm.
  - cbn. rewrite append_nil_r. reflexivity.
  - cbn [forHasNext length]. rewrite Next_spec, (calm_outcome _ _ Hcalm).
    rewrite IH by (eapply calm_advance; exact Hcalm).
    rewrite fetched_S. f_equal. f_equal.
    cbn [appended]. unfold element.
    destruct written; rewrite !append_assoc; reflexivity.
Qed.

(** The loop in general: it stops at the first fetch that fails. *)
Lemma forHasNext_world (h : nat) (kvs : list KV) (buffer : string)
    (written : bool) (w : World) :
  (∃ out, forHasNext h kvs buffer written w
          = (Ok out, fetched h (length kvs) w))
  ∨ (∃ err n, (0 < n ≤ length kvs)%nat ∧
       forHasNext h kvs buffer written w = (Err err, fetched h n w)).
Proof.
  revert buffer written w.
  induction kvs as [|kv rest IH]; intros buffer written w.
  - left. eexists. reflexivity.
  - cbn [forHasNext length]. rewrite Next_spec.
    destruct (outcome w) as [err|].
    + right. exists err, 1%nat. split; [lia | reflexivity].
    + match goal with
      | |- context [forHasNext h rest ?b true ?w'] =>
          destruct (IH b true w') as [(out & ->)|(err & n & Hn & ->)]
      end.
      * left. exists out. rewrite fetched_S. reflexivity.
      * right. exists err, (S n). split; [lia|]. rewrite fetched_S. reflexivity.
Qed.

Lemma calm_script (n : nat) (w w' : World) :
  script w' = script w → calm n w → calm n w'.
Proof. unfold calm. intros ->. exact id. Qed.

(** The query function, with its stub calls spelled out. *)
Lemma getQueryResult_spec (q : string) (w : World) :
  getQueryResultForQueryString q w =
  let w0 := Print ("- getQueryResultForQueryString queryString:" +:+ nl +:+
                   q +:+ nl) w in
  match outcome w with
  | Some err => (Err err, advance (EvGetQueryResult q) w0)
  | None =>
      let it := mkIter (fresh (cursors w)) (runQuery q (ledger w)) in
      let w1 := setCursors ({[handle it]} ∪ cursors w)
                           (advance (EvGetQueryResult q) w0) in
      let looped := forHasNext (handle it) (pending it) "[" false w1 in
      (match looped.1 with
       | Err err => Err err
       | Ok buffer => Ok (buffer +:+ "]")
       end,
       Close it
         match looped.1 with
         | Err _ => looped.2
         | Ok buffer =>
             Print ("- getQueryResultForQueryString queryResult:" +:+ nl +:+
                    (buffer +:+ "]") +:+ nl) looped.2
         end)
  end.
Proof.
  unfold getQueryResultForQueryString, GetQueryResult.
  rewrite fault_spec.
  change (outcome (Print _ w)) with (outcome w).
  destruct (outcome w); [reflexivity|].
  cbv zeta. cbn [handle pending ledger cursors advance Print].
  destruct (forHasNext _ _ _ _ _) as [[buffer|err] w2]; reflexivity.
Qed.

(** Closing the iterator that was opened last leaves open the iterators
    that were open before. *)
Lemma Close_fresh (kvs : list KV) (w w' : World) :
  cursors w' = {[fresh (cursors w)]} ∪ cursors w →
  cursors (Close (mkIter (fresh (cursors w)) kvs) w') = cursors w.
Proof.
  intros Hc. unfold Close. cbn [cursors setCursors record handle].
  rewrite Hc. pose proof (is_fresh (cursors w)) as Hfresh.
  apply set_eq. intros x.
  rewrite elem_of_difference, elem_of_union, !elem_of_singleton. split.
  - intros [[->|Hx] Hn]; [exfalso; apply Hn; reflexivity | exact Hx].
  - intros Hx. split; [right; exact Hx | intros ->; exact (Hfresh Hx)].
Qed.

(** C10: once the query has handed out an iterator, every way out of the
    assembly of the result closes it before returning: after all the
    results have been fetched, and just as well after a fetch has failed.
    The call that closes it is the last one made, and no iterator stays
    open.  When the query itself fails there is no iterator to close. *)
Theorem iterator_always_closed (q : string) (w : World) :
  (outcome w = None →
     ∃ h n,
       (h ∉ cursors w)
       ∧ journal (getQueryResultForQueryString q w).2
         = journal w ++ [EvGetQueryResult q] ++ repeat (EvNext h) n ++ [EvClose h]
       ∧ cursors (getQueryResultForQueryString q w).2 = cursors w
       ∧ ((∃ out, (getQueryResultForQueryString q w).1 = Ok out
                  ∧ n = length (runQuery q (ledger w)))
          ∨ (∃ err, (getQueryResultForQueryString q w).1 = Err err
                    ∧ (0 < n ≤ length (runQuery q (ledger w)))%nat)))
  ∧ (∀ err, outcome w = Some err →
       (getQueryResultForQueryString q w).1 = Err err
       ∧ journal (getQueryResultForQueryString q w).2
         = journal w ++ [EvGetQueryResult q]
       ∧ cursors (getQueryResultForQueryString q w).2 = cursors w).
Proof.
  rewrite getQueryResult_spec. cbv zeta. split.
  - intros ->. cbn [handle pending].
    set (h := fresh (cursors w)).
    set (kvs := runQuery q (ledger w)).
    set (w1 := setCursors _ _).
    assert (Hj1 : journal w1 = journal w ++ [EvGetQueryResult q]) by reflexivity.
    assert (Hc1 : cursors w1 = {[h]} ∪ cursors w) by reflexivity.
    destruct (forHasNext_world h kvs "[" false w1)
      as [(out & E)|(err & n & Hn & E)]; rewrite E; cbn [fst snd].
    + exists h, (length kvs).
      destruct (fetched_world h (length kvs) w1) as (_ & Hc & _ & Hj & _).
      split; [apply is_fresh|]. split; [|split].
      * unfold Close. cbn [journal setCursors record Print handle].
        rewrite Hj, Hj1, <- !app_assoc. reflexivity.
      * apply Close_fresh. cbn [cursors Print]. rewrite Hc. exact Hc1.
      * left. eexists. split; reflexivity.
    + exists h, n.
      destruct (fetched_world h n w1) as (_ & Hc & _ & Hj & _).
      split; [apply is_fresh|]. split; [|split].
      * unfold Close. cbn [journal setCursors record handle].
        rewrite Hj, Hj1, <- !app_assoc. reflexivity.
      * apply Close_fresh. rewrite Hc. exact Hc1.
      * right. exists err. split; [reflexivity | exact Hn].
  - intros err ->. repeat split.
Qed.

(** The query succeeds with the array of all results when neither the
    query nor any fetch fails. *)
Lemma getQueryResult_calm (q : string) (w : World) :
  calm (S (length (runQuery q (ledger w)))) w →
  (getQueryResultForQueryString q w).1
  = Ok ("[" +:+ commaJoin (map element (runQuery q (ledger w))) +:+ "]").
Proof.
  intros Hcalm. rewrite getQueryResult_spec. cbv zeta.
  rewrite (calm_outcome _ _ Hcalm). cbn [handle pending].
  rewrite forHasNext_calm.
  - cbn [fst]. rewrite appended_false. reflexivity.
  - eapply calm_script; [|eapply (calm_advance _ (EvGetQueryResult q)); exact Hcalm].
    reflexivity.
Qed.

(** The query never writes. *)
Lemma getQueryResult_ledger (q : string) (w : World) :
  ledger (getQueryResultForQueryString q w).2 = ledger w.
Proof.
  rewrite getQueryResult_spec. cbv zeta.
  destruct (outcome w); [reflexivity|]. cbn [handle pending snd].
  match goal with
  | |- context [forHasNext ?h ?kvs ?b ?f ?w1] =>
      destruct (forHasNext_world h kvs b f w1)
        as [(out & E)|(err & n & Hn & E)]; rewrite E; cbn [fst snd];
      unfold Close; cbn [ledger setCursors record Print]
  end.
  - match goal with
    | |- ledger (fetched ?h ?n ?w1) = _ =>
        destruct (fetched_world h n w1) as (-> & _)
    end. reflexivity.
  - match goal with
    | |- ledger (fetched ?h ?n ?w1) = _ =>
        destruct (fetched_world h n w1) as (-> & _)
    end. reflexivity.
Qed.

(** The grammar at work: numbers and the insides of strings that it takes,
    and some that it refuses. *)
Example number_accepts :
  forallb number ["0"; "-0"; "12"; "-4674"; "3.25"; "1e9"; "1E+9"; "-2.5e-3"]
  = true.
Proof. reflexivity. Qed.

Example number_refuses :
  forallb number [""; "-"; "01"; "1."; ".5"; "+1"; "1e"; "1e+"; "0x1"; "1 "]
  = false
  ∧ existsb number [""; "-"; "01"; "1."; ".5"; "+1"; "1e"; "1e+"; "0x1"; "1 "]
    = false.
Proof. split; reflexivity. Qed.

Example characters_accepts :
  forallb characters
    ["hussein"; "r" +:+ bsl +:+ "u0026d"; bsl +:+ dq; bsl +:+ bsl;
     String "195" (String "169" "")]
  = true.
Proof. reflexivity. Qed.

Example characters_refuses :
  existsb characters
    [dq; bsl; bsl +:+ "x"; bsl +:+ "u12"; nul; nl; String "195" "";
     String "169" ""; String "255" ""; String "192" (String "128" "")]
  = false.
Proof. reflexivity. Qed.

Lemma element_Json (kv : KV) :
  characters (Key kv) = true → Json (Value kv) → Json (element kv).
Proof.
  intros Hk Hv.
  pose proof (Json_object
    [ "" +:+ dq +:+ "Key" +:+ dq +:+ "" +:+ ":" +:+ (dq +:+ Key kv +:+ dq);
      " " +:+ dq +:+ "Record" +:+ dq +:+ "" +:+ ":" +:+ Value kv ]) as H.
  cbn [commaJoin] in H.
  replace (element kv) with
    ("{" +:+ (("" +:+ dq +:+ "Key" +:+ dq +:+ "" +:+ ":" +:+ (dq +:+ Key kv +:+ dq))
             +:+ "," +:+ " " +:+ dq +:+ "Record" +:+ dq +:+ "" +:+ ":" +:+ Value kv)
         +:+ "}").
  - apply H. constructor; [|constructor; [|constructor]].
    + apply Json_member; [reflexivity .. | apply Json_string; exact Hk].
    + apply Json_member; [reflexivity .. | exact Hv].
  - unfold element. rewrite !append_nil_l, !append_assoc. reflexivity.
Qed.

(** C5, as amended: when the query and every fetch succeed, the result is
    exactly [[{"Key":"<k1>", "Record":<v1>},{"Key":"<k2>", "Record":<v2>},...]],
    one element per pair of the stream and in its order: a comma and a
    space stand between the Key and the Record member of an element, the
    stored value is embedded as it is, a comma stands between any two
    elements and nowhere else, and an empty stream gives [[]].  The result
    is a JSON text (RFC 8259) whenever every key can stand between the
    quotes of a JSON string as it is and every stored value is itself a
    JSON text. *)
Theorem query_result_array (q : string) (w : World) :
  calm (S (length (runQuery q (ledger w)))) w →
  (getQueryResultForQueryString q w).1
  = Ok ("[" +:+ commaJoin (map element (runQuery q (ledger w))) +:+ "]")
  ∧ length (map element (runQuery q (ledger w))) = length (runQuery q (ledger w))
  ∧ (runQuery q (ledger w) = [] →
     (getQueryResultForQueryString q w).1 = Ok "[]")
  ∧ (Forall (fun kv => characters (Key kv) = true ∧ Json (Value kv))
            (runQuery q (ledger w)) →
     ∃ out, (getQueryResultForQueryString q w).1 = Ok out ∧ Json out).
Proof.
  intros Hcalm. pose proof (getQueryResult_calm q w Hcalm) as Hout.
  split; [exact Hout|]. split; [apply length_map|]. split.
  - intros Hnil. rewrite Hout, Hnil. reflexivity.
  - intros Hall. eexists. split; [exact Hout|].
    apply Json_array. rewrite Forall_map.
    eapply Forall_impl; [exact Hall|].
    intros kv [Hk Hv]. apply element_Json; assumption.
Qed.

End Query.

(** ** QueryByOwner *)

Section OwnerQuery.
Context {P : Platform}.

Lemma lowerByte_idem (c : ascii) :
  strings.lowerByte (strings.lowerByte c) = strings.lowerByte c.
Proof. destruct c as [[] [] [] [] [] [] [] []]; reflexivity. Qed.

Lemma lowerByte_ascii (c : ascii) :
  (byteOf (strings.lowerByte c) <? 128) = (byteOf c <? 128).
Proof. destruct c as [[] [] [] [] [] [] [] []]; reflexivity. Qed.

Lemma isASCII_lower (s : string) :
  strings.isASCII (strings.mapBytes strings.lowerByte s) = strings.isASCII s.
Proof.
  induction s as [|c s IH]; [reflexivity|].
  cbn [strings.mapBytes strings.isASCII]. rewrite lowerByte_ascii, IH. reflexivity.
Qed.

Lemma mapBytes_lower_idem (s : string) :
  strings.mapBytes strings.lowerByte (strings.mapBytes strings.lowerByte s)
  = strings.mapBytes strings.lowerByte s.
Proof.
  induction s as [|c s IH]; [reflexivity|].
  cbn [strings.mapBytes]. rewrite lowerByte_idem, IH. reflexivity.
Qed.

(** Lowering ASCII text twice is lowering it once. *)
Lemma ToLower_ascii_idem (s : string) :
  strings.isASCII s = true → ToLower (ToLower s) = ToLower s.
Proof.
  intros Hs. unfold ToLower, strings.ToLower.
  rewrite Hs, isASCII_lower, Hs. apply mapBytes_lower_idem.
Qed.

Lemma ToLower_idem (s : string) :
  (∀ t, strings.isASCII t = false → ToLower (unicodeLower t) = unicodeLower t) →
  ToLower (ToLower s) = ToLower s.
Proof.
  intros Hu. destruct (strings.isASCII s) eqn:Hs.
  - apply ToLower_ascii_idem, Hs.
  - unfold ToLower at 2 3. unfold strings.ToLower. rewrite Hs. apply Hu, Hs.
Qed.

(** QueryByOwner on at least one argument. *)
Lemma queryCertByOwner_spec (s : string) (more : list string) (w : World) :
  queryCertByOwner (s :: more) w =
  (match (getQueryResultForQueryString (selector (ToLower s)) w).1 with
   | Err err => shim_Error err
   | Ok queryResults => shim_Success (Some queryResults)
   end,
   (getQueryResultForQueryString (selector (ToLower s)) w).2).
Proof.
  unfold queryCertByOwner.
  replace (Z.of_nat (length (s :: more)) <? 1) with false
    by (symmetry; apply Z.ltb_ge; cbn [length]; lia).
  cbn [nth].
  destruct (getQueryResultForQueryString _ w) as [[r|err] w']; reflexivity.
Qed.

Lemma queryCertByOwner_ledger (args : list string) (w : World) :
  ledger (queryCertByOwner args w).2 = ledger w.
Proof.
  destruct args as [|s more].
  - reflexivity.
  - rewrite queryCertByOwner_spec. apply getQueryResult_ledger.
Qed.

(** The first call of the query function is the query itself. *)
Lemma getQueryResult_first_call (q : string) (w : World) :
  ∃ calls, journal (getQueryResultForQueryString q w).2
           = journal w ++ EvGetQueryResult q :: calls.
Proof.
  rewrite getQueryResult_spec. cbv zeta.
  destruct (outcome w); [exists []; reflexivity|]. cbn [handle pending snd].
  match goal with
  | |- context [forHasNext ?h ?kvs ?b ?f ?w1] =>
      destruct (forHasNext_world h kvs b f w1)
        as [(out & E)|(err & n & Hn & E)]; rewrite E; cbn [fst snd];
      unfold Close; cbn [journal setCursors record Print handle]
  end.
  - match goal with
    | |- context [journal (fetched ?h ?n ?w1)] =>
        destruct (fetched_world h n w1) as (_ & _ & _ & -> & _)
    end.
    cbn [journal setCursors advance Print]. rewrite <- !app_assoc.
    eexists. reflexivity.
  - match goal with
    | |- context [journal (fetched ?h ?n ?w1)] =>
        destruct (fetched_world h n w1) as (_ & _ & _ & -> & _)
    end.
    cbn [journal setCursors advance Print]. rewrite <- !app_assoc.
    eexists. reflexivity.
Qed.

(** C9: QueryByOwner lowercases its argument before it builds the
    selector, so the owner as given and the owner already lowercased lead
    to the same selector, the same response and the same world.  Lowering
    is repeatable on ASCII text by itself; for other text this is what
    the Unicode case tables are assumed to give. *)
Theorem owner_query_case_insensitive
    (s : string) (more more' : list string) (w : World) :
  (∀ t, strings.isASCII t = false → ToLower (unicodeLower t) = unicodeLower t) →
  queryCertByOwner (ToLower s :: more') w = queryCertByOwner (s :: more) w
  ∧ ∃ calls,
      journal (queryCertByOwner (s :: more) w).2
      = journal w ++ EvGetQueryResult (selector (ToLower s)) :: calls.
Proof.
  intros Hu. rewrite !queryCertByOwner_spec, (ToLower_idem s Hu).
  split; [reflexivity|]. apply getQueryResult_first_call.
Qed.

(** For an owner written in ASCII nothing is assumed. *)
Corollary owner_query_ascii (s : string) (more more' : list string) (w : World) :
  strings.isASCII s = true →
  queryCertByOwner (ToLower s :: more') w = queryCertByOwner (s :: more) w.
Proof.
  intros Hs. rewrite !queryCertByOwner_spec, (ToLower_ascii_idem s Hs). reflexivity.
Qed.

End OwnerQuery.

(** ** ReadByID *)

Section Read.
Context {P : Platform}.

(** C6: ReadByID of a key fails with the key inside a structured message
    when the lookup itself fails, fails with another such message when the
    key is absent, and otherwise returns the stored bytes as they are; it
    never writes. *)
Theorem read_by_id (key : string) (w : World) :
  (∀ err, outcome w = Some err →
     (readCert [key] w).1
     = shim_Error ("{" +:+ dq +:+ "Error" +:+ dq +:+ ":" +:+ dq +:+
                   "Failed to get state for " +:+ key +:+ dq +:+ "}"))
  ∧ (outcome w = None → ledger w !! key = None →
     (readCert [key] w).1
     = shim_Error ("{" +:+ dq +:+ "Error" +:+ dq +:+ ":" +:+ dq +:+
                   "student does not exist: " +:+ key +:+ dq +:+ "}"))
  ∧ (∀ valAsbytes, outcome w = None → ledger w !! key = Some valAsbytes →
     (readCert [key] w).1 = shim_Success (Some valAsbytes))
  ∧ ledger (readCert [key] w).2 = ledger w.
Proof.
  rewrite readCert_one. repeat split.
  - intros err ->. reflexivity.
  - intros -> ->. reflexivity.
  - intros v -> ->. reflexivity.
  - apply readCert_world.
Qed.

End Read.

(** * Further properties of the chaincode *)

(** ** Create, case by case *)

Ltac outcomes :=
  rewrite ?outcome_setLedger, <- ?outcomeAt_0, ?outcomeAt_advance,
    ?outcomeAt_Println in *.

Section CreateCases.
Context {P : Platform}.

(** A Create that passes every check. *)
Lemma initCert_accepted (c d n o : string) (iD : Z) (k : string) (w : World) :
  c ≠ "" → d ≠ "" → n ≠ "" → o ≠ "" →
  strconv.Atoi n = Ok iD →
  outcomeAt 0 w = None → ledger w !! c = None → outcomeAt 1 w = None →
  CreateCompositeKey "degree~name" [ToLower d; c] = Ok k →
  (initCert [c; d; n; o] w).1 = shim_Success None
  ∧ ledger (initCert [c; d; n; o] w).2
    = let doc := document (mkStudent "student" c (ToLower d) iD (ToLower o)) in
      match outcomeAt 2 w with
      | None => <[k := nul]> (<[c := doc]> (ledger w))
      | Some _ => <[c := doc]> (ledger w)
      end.
Proof.
  intros H0 H1 H2 H3 Hn O0 Hfresh O1 Hk.
  apply len_le_0_false in H0, H1, H2, H3.
  create_cases; outcomes; try congruence.
  all: cbv zeta; match goal with H : outcomeAt 2 _ = _ |- _ => rewrite H end.
  all: split; [reflexivity|].
  all: repeat match goal with
         | H : Ok _ = Ok _ |- _ => injection H as <-
         end; reflexivity.
Qed.

(** X1: Create returns success exactly when its four arguments pass
    validation, the lookup of the certificateID succeeds and finds nothing,
    the write of the record succeeds and the index key can be built; whether
    the write of the index key succeeds plays no part. *)
Theorem create_success_iff (args : list string) (w : World) :
  Status (initCert args w).1 = OK
  ↔ wellFormed args
    ∧ outcomeAt 0 w = None
    ∧ ledger w !! nth 0 args "" = None
    ∧ outcomeAt 1 w = None
    ∧ ∃ k, CreateCompositeKey "degree~name"
             [ToLower (nth 1 args ""); nth 0 args ""] = Ok k.
Proof.
  unfold wellFormed. split.
  - destruct (decide (length args = 4%nat)) as [Hlen|Hlen].
    2:{ rewrite initCert_wrong_count by assumption. discriminate. }
    rewrite (four_args args Hlen) at 1. 
    create_cases; outcomes; try discriminate.
    all: intros _.
    all: repeat split; try assumption; try (eexists; reflexivity).
    all: intros i Hi; apply len_le_0_false;
      destruct i as [|[|[|[|i]]]]; try lia; assumption.
  - intros ((Hlen & Hne & iD & Hn) & O0 & Hfresh & O1 & k & Hk).
    rewrite (four_args args Hlen) at 1.
    destruct (initCert_accepted (nth 0 args "") (nth 1 args "") (nth 2 args "")
                (nth 3 args "") iD k w) as [-> _]; try assumption;
      try (apply Hne; lia).
    reflexivity.
Qed.

(** X2: when the lookup of the certificateID fails, Create reports that
    failure, with the text of the store's error after a fixed prefix, and
    stops there: the lookup is the only call made and nothing is written. *)
Theorem create_lookup_failure (c d n o : string) (iD : Z) (err : error) (w : World) :
  c ≠ "" → d ≠ "" → n ≠ "" → o ≠ "" →
  strconv.Atoi n = Ok iD →
  outcomeAt 0 w = Some err →
  (initCert [c; d; n; o] w).1 = shim_Error ("Failed to get student: " +:+ err)
  ∧ journal (initCert [c; d; n; o] w).2 = journal w ++ [EvGetState c]
  ∧ ledger (initCert [c; d; n; o] w).2 = ledger w.
Proof.
  intros H0 H1 H2 H3 Hn O0.
  apply len_le_0_false in H0, H1, H2, H3.
  create_cases; outcomes; try congruence.
  repeat split. congruence.
Qed.

(** X3: when the write of the record fails, Create reports the store's
    error as it is and stops: the ledger is as before and the write of the
    index key is never attempted. *)
Theorem create_record_write_failure
    (c d n o : string) (iD : Z) (err : error) (w : World) :
  c ≠ "" → d ≠ "" → n ≠ "" → o ≠ "" →
  strconv.Atoi n = Ok iD →
  outcomeAt 0 w = None → ledger w !! c = None →
  outcomeAt 1 w = Some err →
  (initCert [c; d; n; o] w).1 = shim_Error err
  ∧ journal (initCert [c; d; n; o] w).2
    = journal w ++
      [EvGetState c;
       EvPutState c (document (mkStudent "student" c (ToLower d) iD (ToLower o)))]
  ∧ ledger (initCert [c; d; n; o] w).2 = ledger w.
Proof.
  intros H0 H1 H2 H3 Hn O0 Hfresh O1.
  apply len_le_0_false in H0, H1, H2, H3.
  create_cases; outcomes; try congruence.
  all: repeat match goal with
         | H : Ok _ = Ok _ |- _ => injection H as <-
         end.
  all: split; [congruence|]; split; [|reflexivity].
  all: rewrite <- !app_assoc; reflexivity.
Qed.

(** X4: when the index key cannot be built, Create reports the error of the
    encoding as it is, after the record has been written: the record stays
    in the ledger, and no write of an index key is attempted. *)
Theorem create_key_failure (c d n o : string) (iD : Z) (err : error) (w : World) :
  c ≠ "" → d ≠ "" → n ≠ "" → o ≠ "" →
  strconv.Atoi n = Ok iD →
  outcomeAt 0 w = None → ledger w !! c = None → outcomeAt 1 w = None →
  CreateCompositeKey "degree~name" [ToLower d; c] = Err err →
  (initCert [c; d; n; o] w).1 = shim_Error err
  ∧ journal (initCert [c; d; n; o] w).2
    = journal w ++
      [EvGetState c;
       EvPutState c (document (mkStudent "student" c (ToLower d) iD (ToLower o)))]
  ∧ ledger (initCert [c; d; n; o] w).2
    = <[c := document (mkStudent "student" c (ToLower d) iD (ToLower o))]> (ledger w).
Proof.
  intros H0 H1 H2 H3 Hn O0 Hfresh O1 Hk.
  apply len_le_0_false in H0, H1, H2, H3.
  create_cases; outcomes; try congruence.
  all: repeat match goal with
         | H : Ok _ = Ok _ |- _ => injection H as <-
         | H : Err _ = Err _ |- _ => injection H as <-
         end.
  all: split; [reflexivity|]; split; [|reflexivity].
  all: rewrite <- !app_assoc; reflexivity.
Qed.

(** What Create leaves of the entries that were there. *)
Lemma initCert_keeps (c d n o : string) (w : World) :
  (∀ key, is_Some (ledger w !! key) →
          is_Some (ledger (initCert [c; d; n; o] w).2 !! key))
  ∧ (∀ key v,
       ledger w !! key = Some v →
       CreateCompositeKey "degree~name" [ToLower d; c] ≠ Ok key →
       ledger (initCert [c; d; n; o] w).2 !! key = Some v).
Proof.
  split.
  - intros key [v Hv]. create_cases; try (eexists; eassumption).
    all: repeat match goal with
           | |- is_Some (<[?k := _]> _ !! ?key') =>
               destruct (decide (k = key')) as [->|?];
               [rewrite lookup_insert_eq; eexists; reflexivity
               |rewrite lookup_insert_ne by assumption]
           end.
    all: eexists; eassumption.
  - intros key v Hv Hk. create_cases; try assumption.
    all: repeat match goal with
           | |- <[?k := _]> _ !! ?key' = _ =>
               rewrite (lookup_insert_ne _ k key') by congruence
           end.
    all: assumption.
Qed.

(** X5: Create never removes a key, and it changes the value of no key that
    was present, the index key of the call apart: a record once stored is
    not touched by a later Create on any certificateID. *)
Theorem create_keeps_entries (args : list string) (w : World) :
  (∀ key, is_Some (ledger w !! key) →
          is_Some (ledger (initCert args w).2 !! key))
  ∧ (∀ key v,
       ledger w !! key = Some v →
       CreateCompositeKey "degree~name" [ToLower (nth 1 args ""); nth 0 args ""]
         ≠ Ok key →
       ledger (initCert args w).2 !! key = Some v).
Proof.
  destruct (decide (length args = 4%nat)) as [Hlen|Hlen].
  - pose proof (initCert_keeps (nth 0 args "") (nth 1 args "") (nth 2 args "")
                               (nth 3 args "") w) as H.
    rewrite <- (four_args args Hlen) in H. exact H.
  - rewrite initCert_wrong_count by assumption. split; auto.
Qed.

(** The store calls of Create on four arguments. *)
Lemma initCert_calls (c d n o : string) (w : World) :
  ∃ calls,
    journal (initCert [c; d; n; o] w).2 = journal w ++ calls
    ∧ (calls = [] ∨ calls = [EvGetState c]
       ∨ ∃ iD,
           strconv.Atoi n = Ok iD
           ∧ let doc := document (mkStudent "student" c (ToLower d) iD (ToLower o)) in
             calls = [EvGetState c; EvPutState c doc]
             ∨ ∃ k, CreateCompositeKey "degree~name" [ToLower d; c] = Ok k
                    ∧ calls = [EvGetState c; EvPutState c doc; EvPutState k nul]).
Proof.
  create_cases.
  all: first
    [ solve [ exists []; split; [symmetry; apply app_nil_r | left; reflexivity] ]
    | solve [ eexists [_]; split; [reflexivity | right; left; reflexivity] ]
    | solve [ eexists [_; _]; split;
              [ rewrite <- !app_assoc; reflexivity
              | right; right; eexists; split; [reflexivity|];
                left; reflexivity ] ]
    | solve [ eexists [_; _; _]; split;
              [ rewrite <- !app_assoc; reflexivity
              | right; right; eexists; split; [reflexivity|];
                right; eexists; split; reflexivity ] ] ].
Qed.

(** X6: whatever its arguments and whichever call fails, the store calls
    of a Create are the first none, one, two or all three of: the lookup of
    the certificateID, the write under the certificateID of the record
    built from the arguments, and the write of the sentinel byte under the
    index key built from the lowercased degree and the certificateID.  No
    write comes before the lookup, no index write before the record write,
    and nothing else is written. *)
Theorem create_call_order (args : list string) (w : World) :
  let c := nth 0 args "" in
  let d := ToLower (nth 1 args "") in
  ∃ calls,
    journal (initCert args w).2 = journal w ++ calls
    ∧ (calls = [] ∨ calls = [EvGetState c]
       ∨ ∃ iD,
           strconv.Atoi (nth 2 args "") = Ok iD
           ∧ let doc := document (mkStudent "student" c d iD
                                            (ToLower (nth 3 args ""))) in
             calls = [EvGetState c; EvPutState c doc]
             ∨ ∃ k, CreateCompositeKey "degree~name" [d; c] = Ok k
                    ∧ calls = [EvGetState c; EvPutState c doc; EvPutState k nul]).
Proof.
  cbv zeta.
  destruct (decide (length args = 4%nat)) as [Hlen|Hlen].
  - pose proof (initCert_calls (nth 0 args "") (nth 1 args "") (nth 2 args "")
                               (nth 3 args "") w) as H.
    rewrite <- (four_args args Hlen) in H. exact H.
  - rewrite initCert_wrong_count by assumption.
    exists []. split; [symmetry; apply app_nil_r | left; reflexivity].
Qed.

End CreateCases.

(** ** Create: the spelling of its arguments *)

Section CreateArguments.
Context {P : Platform}.

Lemma ToLower_ascii_len (s : string) :
  strings.isASCII s = true → (len (ToLower s) <=? 0) = (len s <=? 0).
Proof.
  intros Hs. unfold ToLower, strings.ToLower. rewrite Hs.
  destruct s; reflexivity.
Qed.

(** X7: Create does not tell upper case from lower case in an ASCII degree
    or owner: with either argument already lowercased it ends with the same
    response in the same world. *)
Theorem create_case_insensitive (c d n o : string) (w : World) :
  strings.isASCII d = true → strings.isASCII o = true →
  initCert [c; ToLower d; n; ToLower o] w = initCert [c; d; n; o] w.
Proof.
  intros Hd Ho. rewrite !initCert_four. cbv zeta.
  rewrite !ToLower_ascii_len, !ToLower_ascii_idem by assumption.
  reflexivity.
Qed.

Lemma Itoa_nonempty (n : Z) :
  strconv.minInt ≤ n ≤ strconv.maxInt → strconv.Itoa n ≠ "".
Proof.
  intros Hn E. pose proof (Atoi_Itoa n Hn) as H. rewrite E in H. discriminate H.
Qed.

(** X8: every [int], written in decimal, is accepted as numeric ID: with
    the other arguments non-empty, the certificateID free, the index key
    built and no store call failing, Create succeeds and stores the record
    whose iD member is that same decimal text, next to the index entry. *)
Theorem create_accepts_every_int (c d o : string) (n : Z) (k : string) (w : World) :
  strconv.minInt ≤ n ≤ strconv.maxInt →
  c ≠ "" → d ≠ "" → o ≠ "" →
  ledger w !! c = None →
  calm 3 w →
  CreateCompositeKey "degree~name" [ToLower d; c] = Ok k →
  (initCert [c; d; strconv.Itoa n; o] w).1 = shim_Success None
  ∧ ledger (initCert [c; d; strconv.Itoa n; o] w).2
    = <[k := nul]>
        (<[c := "{" +:+ member "docType" +:+ encodeString "student" +:+
                "," +:+ member "cert" +:+ encodeString c +:+
                "," +:+ member "degree" +:+ encodeString (ToLower d) +:+
                "," +:+ member "iD" +:+ strconv.Itoa n +:+
                "," +:+ member "owner" +:+ encodeString (ToLower o) +:+ "}"]>
           (ledger w)).
Proof.
  intros Hn H0 H1 H3 Hfresh Hcalm Hk.
  destruct (initCert_accepted c d (strconv.Itoa n) o n k w) as [Hr Hl];
    try assumption.
  - apply Itoa_nonempty, Hn.
  - apply Atoi_Itoa, Hn.
  - apply (calm_outcomeAt 3); [exact Hcalm | lia].
  - apply (calm_outcomeAt 3); [exact Hcalm | lia].
  - split; [exact Hr|]. rewrite Hl.
    rewrite (calm_outcomeAt 3 2 w Hcalm) by lia. reflexivity.
Qed.

End CreateArguments.

(** ** ReadByID and the queries, beyond their results *)

Section Reads.
Context {P : Platform}.

Lemma writes_repeat_Next (h n : nat) : writes (repeat (EvNext h) n) = 0%nat.
Proof. induction n as [|n IH]; [reflexivity | exact IH]. Qed.

(** The loop returns a buffer only after it has appended every result. *)
Lemma forHasNext_ok (h : nat) (kvs : list KV) (buffer : string)
    (written : bool) (w : World) (out : string) :
  (forHasNext h kvs buffer written w).1 = Ok out →
  out = buffer +:+ appended written kvs.
Proof.
  revert buffer written w.
  induction kvs as [|kv rest IH]; intros buffer written w.
  - cbn. intros [= <-]. symmetry. apply append_nil_r.
  - cbn [forHasNext]. rewrite Next_spec.
    destruct (outcome w); [discriminate|].
    intros H. apply IH in H. rewrite H. cbn [appended]. unfold element.
    destruct written; rewrite !append_assoc; reflexivity.
Qed.

(** The loop fails with the error of the first fetch that fails. *)
Lemma forHasNext_fails (h : nat) (kvs : list KV) (buffer : string)
    (written : bool) (w : World) (i : nat) (err : error) :
  calm i w → (i < length kvs)%nat → outcomeAt i w = Some err →
  (forHasNext h kvs buffer written w).1 = Err err.
Proof.
  revert buffer written w i.
  induction kvs as [|kv rest IH]; intros buffer written w i Hcalm Hi Herr.
  - cbn in Hi. lia.
  - cbn [forHasNext]. rewrite Next_spec. destruct i as [|i].
    + rewrite outcomeAt_0 in Herr. rewrite Herr. reflexivity.
    + rewrite (calm_outcome _ _ Hcalm).
      apply (IH _ _ _ i).
      * eapply calm_advance. exact Hcalm.
      * cbn [length] in Hi. lia.
      * rewrite outcomeAt_advance. exact Herr.
Qed.

(** What the query function does to the world, whatever its result. *)
Lemma getQueryResult_world (q : string) (w : World) :
  ledger (getQueryResultForQueryString q w).2 = ledger w
  ∧ cursors (getQueryResultForQueryString q w).2 = cursors w
  ∧ writes (journal (getQueryResultForQueryString q w).2) = writes (journal w).
Proof.
  split; [apply getQueryResult_ledger|].
  rewrite getQueryResult_spec. cbv zeta.
  destruct (outcome w).
  { split; [reflexivity|]. cbn [snd journal advance Print].
    rewrite writes_app. cbn. lia. }
  cbn [handle pending snd].
  match goal with
  | |- context [forHasNext ?h ?kvs ?b ?f ?w1] =>
      destruct (forHasNext_world h kvs b f w1)
        as [(out & E)|(err & n & Hn & E)]; rewrite E; cbn [fst snd]
  end.
  - match goal with
    | |- context [fetched ?h ?n ?w1] =>
        destruct (fetched_world h n w1) as (_ & Hc & _ & Hj & _)
    end.
    split.
    + apply Close_fresh. cbn [cursors Print]. rewrite Hc. reflexivity.
    + unfold Close. cbn [journal setCursors record Print]. rewrite Hj.
      cbn [journal setCursors advance Print].
      rewrite !writes_app, writes_repeat_Next. cbn. lia.
  - match goal with
    | |- context [fetched ?h ?n ?w1] =>
        destruct (fetched_world h n w1) as (_ & Hc & _ & Hj & _)
    end.
    split.
    + apply Close_fresh. rewrite Hc. reflexivity.
    + unfold Close. cbn [journal setCursors record]. rewrite Hj.
      cbn [journal setCursors advance Print].
      rewrite !writes_app, writes_repeat_Next. cbn. lia.
Qed.

(** X9: ReadByID only reads.  Given one argument it makes exactly one call
    to the store, the lookup of that key; given any other number of
    arguments it fails at once and makes none.  It never writes, and it
    opens no iterator. *)
Theorem read_only (args : list string) (w : World) :
  (length args ≠ 1%nat →
     readCert args w
     = (shim_Error
          "Incorrect number of arguments. Expecting cert of the student to query",
        w))
  ∧ (length args = 1%nat →
       journal (readCert args w).2 = journal w ++ [EvGetState (nth 0 args "")])
  ∧ ledger (readCert args w).2 = ledger w
  ∧ cursors (readCert args w).2 = cursors w
  ∧ writes (journal (readCert args w).2) = writes (journal w).
Proof.
  destruct args as [|key [|key' rest]].
  - repeat split; try reflexivity. cbn [length]. lia.
  - assert (H : journal (readCert [key] w).2 = journal w ++ [EvGetState key]
                ∧ ledger (readCert [key] w).2 = ledger w
                ∧ cursors (readCert [key] w).2 = cursors w).
    { unfold readCert.
      cbn [length nth negb Z.of_nat Z.eqb Pos.of_succ_nat Pos.eqb].
      rewrite GetState_spec. destruct (outcome w); [repeat split|].
      cbn [ledger advance]. destruct (ledger w !! key); repeat split. }
    destruct H as (Hj & Hl & Hc).
    split; [intros Hn; cbn [length] in Hn; lia|].
    split; [intros _; exact Hj|]. split; [exact Hl|]. split; [exact Hc|].
    rewrite Hj, writes_app. cbn. lia.
  - unfold readCert.
    replace (Z.of_nat (length (key :: key' :: rest)) =? 1) with false
      by (symmetry; apply Z.eqb_neq; cbn [length]; lia).
    cbn [negb]. repeat split. cbn [length]. lia.
Qed.

End Reads.

Section Queries.
Context {P : Platform}.

(** X10: QueryByOwner without an argument fails at once, with no call to the
    store; given more than one argument it uses the first and ignores the
    others. *)
Theorem query_owner_arguments (s : string) (more : list string) (w : World) :
  queryCertByOwner [] w
  = (shim_Error "Incorrect number of arguments. Expecting 1", w)
  ∧ queryCertByOwner (s :: more) w = queryCertByOwner [s] w.
Proof.
  split; [reflexivity|]. rewrite !queryCertByOwner_spec. reflexivity.
Qed.

(** X11: a query result is all or nothing.  Whenever the assembly returns
    a result at all, the query was accepted and the result is the complete
    array, one element for each pair the query found: a truncated array is
    never returned. *)
Theorem query_all_or_nothing (q : string) (w : World) (out : bytes) :
  (getQueryResultForQueryString q w).1 = Ok out →
  outcome w = None
  ∧ out = "[" +:+ commaJoin (map element (runQuery q (ledger w))) +:+ "]".
Proof.
  rewrite getQueryResult_spec. cbv zeta.
  destruct (outcome w); [discriminate|]. cbn [fst handle pending].
  destruct (forHasNext _ _ _ _ _).1 as [buffer|err] eqn:E; [|discriminate].
  intros [= <-]. split; [reflexivity|].
  apply forHasNext_ok in E. rewrite E, append_assoc, appended_false. reflexivity.
Qed.

(** X12: QueryByOwner passes on the error of the query facility as it is:
    the error of the query when the query is refused, and the error of the
    first fetch that fails when the stream of results breaks off, with no
    payload in either case. *)
Theorem query_failure_verbatim
    (s : string) (more : list string) (w : World) (err : error) :
  (outcome w = Some err →
     (queryCertByOwner (s :: more) w).1 = shim_Error err)
  ∧ (∀ i, calm (S i) w →
          (i < length (runQuery (selector (ToLower s)) (ledger w)))%nat →
          outcomeAt (S i) w = Some err →
          (queryCertByOwner (s :: more) w).1 = shim_Error err).
Proof.
  rewrite queryCertByOwner_spec, getQueryResult_spec. cbv zeta. split.
  - intros ->. reflexivity.
  - intros i Hcalm Hi Herr. rewrite (calm_outcome _ _ Hcalm).
    cbn [fst handle pending].
    rewrite (forHasNext_fails _ _ _ _ _ i err); [reflexivity | | exact Hi |].
    + eapply calm_script;
        [|eapply (calm_advance _ (EvGetQueryResult (selector (ToLower s))));
          exact Hcalm].
      reflexivity.
    + rewrite <- Herr. unfold outcomeAt. cbn [script setCursors advance Print].
      destruct (script w); [rewrite !lookup_nil|]; reflexivity.
Qed.

End Queries.

(** ** Invoke *)

Lemma outcomeAt_mute (i : nat) (w : World) : outcomeAt i (mute w) = outcomeAt i w.
Proof. reflexivity. Qed.

Lemma outcomeAt_Print (i : nat) (s : string) (w : World) :
  outcomeAt i (Print s w) = outcomeAt i w.
Proof. reflexivity. Qed.

Section Dispatch.
Context {P : Platform}.

(** What was printed before has no part in what Create does. *)
Lemma initCert_quiet (args : list string) (w : World) :
  (initCert args w).1 = (initCert args (mute w)).1
  ∧ mute (initCert args w).2 = mute (initCert args (mute w)).2.
Proof.
  destruct (decide (length args = 4%nat)) as [Hlen|Hlen].
  2:{ rewrite !initCert_wrong_count by assumption. split; reflexivity. }
  rewrite (four_args args Hlen). rewrite !initCert_four. cbv zeta.
  repeat first
    [ rewrite GetState_spec
    | rewrite PutState_spec
    | rewrite put_document
    | rewrite put_nul
    | progress cbn [fst snd ledger script journal cursors stdout advance
                    Println Print setLedger mute]
    | progress (rewrite ?outcome_setLedger, <- ?outcomeAt_0, ?outcomeAt_advance,
                  ?outcomeAt_Println, ?outcomeAt_mute)
    | match goal with
      | |- context [if ?b then _ else _] =>
          match type of b with bool => destruct b eqn:? end
      | |- context [match strconv.Atoi ?s with _ => _ end] =>
          destruct (strconv.Atoi s) eqn:?
      | |- context [match outcomeAt ?i ?w with _ => _ end] =>
          destruct (outcomeAt i w) eqn:?
      | |- context [match ?m !! ?k with _ => _ end] =>
          destruct (m !! k) eqn:?
      | |- context [match CreateCompositeKey ?i ?a with _ => _ end] =>
          destruct (CreateCompositeKey i a) eqn:?
      end ].
  all: split; reflexivity.
Qed.

Lemma readCert_quiet (args : list string) (w : World) :
  (readCert args w).1 = (readCert args (mute w)).1
  ∧ mute (readCert args w).2 = mute (readCert args (mute w)).2.
Proof.
  unfold readCert. destruct (negb _); [split; reflexivity|].
  rewrite !GetState_spec.
  change (outcome (mute w)) with (outcome w).
  destruct (outcome w); [split; reflexivity|].
  cbn [ledger advance mute]. destruct (ledger w !! _); split; reflexivity.
Qed.

Lemma forHasNext_quiet (h : nat) (kvs : list KV) (buffer : string)
    (written : bool) (w : World) :
  (forHasNext h kvs buffer written w).1
  = (forHasNext h kvs buffer written (mute w)).1
  ∧ mute (forHasNext h kvs buffer written w).2
    = mute (forHasNext h kvs buffer written (mute w)).2.
Proof.
  revert buffer written w.
  induction kvs as [|kv rest IH]; intros buffer written w.
  - split; reflexivity.
  - cbn [forHasNext]. rewrite !Next_spec.
    change (outcome (mute w)) with (outcome w).
    destruct (outcome w); [split; reflexivity|].
    change (advance (EvNext h) (mute w)) with (mute (advance (EvNext h) w)).
    apply IH.
Qed.

Lemma getQueryResult_quiet (q : string) (w : World) :
  (getQueryResultForQueryString q w).1
  = (getQueryResultForQueryString q (mute w)).1
  ∧ mute (getQueryResultForQueryString q w).2
    = mute (getQueryResultForQueryString q (mute w)).2.
Proof.
  rewrite !getQueryResult_spec. cbv zeta.
  change (outcome (mute w)) with (outcome w).
  destruct (outcome w); [split; reflexivity|].
  change (cursors (mute w)) with (cursors w).
  change (ledger (mute w)) with (ledger w).
  cbn [handle pending].
  set (h := fresh (cursors w)). set (kvs := runQuery q (ledger w)).
  set (w1 := setCursors ({[h]} ∪ cursors w)
                        (advance (EvGetQueryResult q) (Print _ w))).
  set (w2 := setCursors ({[h]} ∪ cursors w)
                        (advance (EvGetQueryResult q) (Print _ (mute w)))).
  destruct (forHasNext_quiet h kvs "[" false w1) as [Hr1 Hm1].
  destruct (forHasNext_quiet h kvs "[" false w2) as [Hr2 Hm2].
  change (mute w2) with (mute w1) in Hr2, Hm2.
  rewrite <- Hm1 in Hm2. rewrite <- Hr1 in Hr2. rewrite <- Hr2.
  injection Hm2 as Hl Hs Hj Hc.
  destruct (forHasNext h kvs "[" false w2).1 as [buffer|err];
    (split; [reflexivity|]); unfold Close, mute;
    cbn [snd ledger script journal cursors stdout setCursors record Print handle];
    rewrite Hl, Hs, Hj, Hc; reflexivity.
Qed.

Lemma queryCertByOwner_quiet (args : list string) (w : World) :
  (queryCertByOwner args w).1 = (queryCertByOwner args (mute w)).1
  ∧ mute (queryCertByOwner args w).2 = mute (queryCertByOwner args (mute w)).2.
Proof.
  destruct args as [|s more]; [split; reflexivity|].
  rewrite !queryCertByOwner_spec. cbn [fst snd].
  destruct (getQueryResult_quiet (selector (ToLower s)) w) as [-> ->].
  split; reflexivity.
Qed.

(** The four ways through Invoke. *)
Lemma Invoke_cases (function : string) (args : list string) (w : World) :
  (function = "initCert"
   ∧ Invoke function args w
     = initCert args (Println ("invoke is running " +:+ function) w))
  ∨ (function = "readCert"
     ∧ Invoke function args w
       = readCert args (Println ("invoke is running " +:+ function) w))
  ∨ (function = "queryCertByOwner"
     ∧ Invoke function args w
       = queryCertByOwner args (Println ("invoke is running " +:+ function) w))
  ∨ (function ≠ "initCert" ∧ function ≠ "readCert"
     ∧ function ≠ "queryCertByOwner"
     ∧ Invoke function args w
       = (shim_Error "Received unknown function invocation",
          Println ("invoke did not find func: " +:+ function)
                  (Println ("invoke is running " +:+ function) w))).
Proof.
  unfold Invoke. cbv zeta.
  destruct (String.eqb_spec function "initCert") as [E1|E1]; [left; auto|].
  destruct (String.eqb_spec function "readCert") as [E2|E2]; [right; left; auto|].
  destruct (String.eqb_spec function "queryCertByOwner") as [E3|E3];
    [right; right; left; auto|].
  right. right. right. auto.
Qed.

Lemma initCert_cursors (args : list string) (w : World) :
  cursors (initCert args w).2 = cursors w.
Proof.
  destruct (decide (length args = 4%nat)) as [Hlen|Hlen].
  2:{ rewrite initCert_wrong_count by assumption. reflexivity. }
  rewrite (four_args args Hlen). create_cases; reflexivity.
Qed.

Lemma readCert_effects (args : list string) (w : World) :
  ledger (readCert args w).2 = ledger w
  ∧ cursors (readCert args w).2 = cursors w
  ∧ writes (journal (readCert args w).2) = writes (journal w).
Proof.
  unfold readCert. destruct (negb _); [repeat split|].
  rewrite GetState_spec.
  destruct (outcome w);
    [|cbn [ledger advance]; destruct (ledger w !! _)];
    cbn [snd ledger cursors journal advance];
    rewrite writes_app; cbn; repeat split; lia.
Qed.

Lemma queryCertByOwner_effects (args : list string) (w : World) :
  ledger (queryCertByOwner args w).2 = ledger w
  ∧ cursors (queryCertByOwner args w).2 = cursors w
  ∧ writes (journal (queryCertByOwner args w).2) = writes (journal w).
Proof.
  destruct args as [|s more]; [repeat split|].
  rewrite queryCertByOwner_spec. apply getQueryResult_world.
Qed.

(** X13: a verb that is none of initCert, readCert and queryCertByOwner
    (the names are compared as they are, case included) is refused, whatever
    the arguments, and nothing behind the stub is touched. *)
Theorem invoke_unknown_function (function : string) (args : list string) (w : World) :
  function ≠ "initCert" → function ≠ "readCert" →
  function ≠ "queryCertByOwner" →
  (Invoke function args w).1 = shim_Error "Received unknown function invocation"
  ∧ untouched w (Invoke function args w).2.
Proof.
  intros H1 H2 H3.
  destruct (Invoke_cases function args w)
    as [[E _]|[[E _]|[[E _]|(_ & _ & _ & ->)]]]; try contradiction.
  split; [reflexivity | repeat split].
Qed.

(** X14: Invoke runs the handler that its verb names, and what it prints
    on the way changes neither the response of the handler nor what the
    handler does behind the stub: Invoke and the handler called directly end
    in worlds that differ in what was printed alone. *)
Theorem invoke_transparent (args : list string) (w : World) :
  ((Invoke "initCert" args w).1 = (initCert args w).1
   ∧ mute (Invoke "initCert" args w).2 = mute (initCert args w).2)
  ∧ ((Invoke "readCert" args w).1 = (readCert args w).1
     ∧ mute (Invoke "readCert" args w).2 = mute (readCert args w).2)
  ∧ ((Invoke "queryCertByOwner" args w).1 = (queryCertByOwner args w).1
     ∧ mute (Invoke "queryCertByOwner" args w).2
       = mute (queryCertByOwner args w).2).
Proof.
  split; [|split].
  - change (Invoke "initCert" args w)
      with (initCert args (Println "invoke is running initCert" w)).
    destruct (initCert_quiet args (Println "invoke is running initCert" w))
      as [-> ->].
    destruct (initCert_quiet args w) as [-> ->]. split; reflexivity.
  - change (Invoke "readCert" args w)
      with (readCert args (Println "invoke is running readCert" w)).
    destruct (readCert_quiet args (Println "invoke is running readCert" w))
      as [-> ->].
    destruct (readCert_quiet args w) as [-> ->]. split; reflexivity.
  - change (Invoke "queryCertByOwner" args w)
      with (queryCertByOwner args
              (Println "invoke is running queryCertByOwner" w)).
    destruct (queryCertByOwner_quiet args
                (Println "invoke is running queryCertByOwner" w)) as [-> ->].
    destruct (queryCertByOwner_quiet args w) as [-> ->]. split; reflexivity.
Qed.

(** An invocation other than a Create leaves the ledger as it was. *)
Lemma Invoke_ledger (function : string) (args : list string) (w : World) :
  function ≠ "initCert" → ledger (Invoke function args w).2 = ledger w.
Proof.
  intros Hf.
  destruct (Invoke_cases function args w)
    as [[E _]|[[_ ->]|[[_ ->]|(_ & _ & _ & ->)]]]; [contradiction|..].
  - apply (readCert_effects args (Println _ w)).
  - apply (queryCertByOwner_effects args (Println _ w)).
  - reflexivity.
Qed.

(** X15: of all the verbs only initCert writes: any other invocation,
    a read, a query or an unknown verb, makes no store write and leaves the
    ledger as it was. *)
Theorem invoke_only_create_writes
    (function : string) (args : list string) (w : World) :
  function ≠ "initCert" →
  ledger (Invoke function args w).2 = ledger w
  ∧ writes (journal (Invoke function args w).2) = writes (journal w).
Proof.
  intros Hf. split; [apply Invoke_ledger, Hf|].
  destruct (Invoke_cases function args w)
    as [[E _]|[[_ ->]|[[_ ->]|(_ & _ & _ & ->)]]]; [contradiction|..].
  - apply (readCert_effects args (Println _ w)).
  - apply (queryCertByOwner_effects args (Println _ w)).
  - reflexivity.
Qed.

(** X16: no invocation leaves a query iterator open: after any verb on any
    arguments, with store calls failing or not, the iterators that are open
    are those that were open before. *)
Theorem invoke_closes_iterators
    (function : string) (args : list string) (w : World) :
  cursors (Invoke function args w).2 = cursors w.
Proof.
  destruct (Invoke_cases function args w)
    as [[_ ->]|[[_ ->]|[[_ ->]|(_ & _ & _ & ->)]]].
  - apply (initCert_cursors args (Println _ w)).
  - apply (readCert_effects args (Println _ w)).
  - apply (queryCertByOwner_effects args (Println _ w)).
  - reflexivity.
Qed.

(** X17: what ReadByID and QueryByOwner answer does not change across an
    invocation that is no Create: with the store calls of both runs
    succeeding, the response after a read, a query or an unknown verb is the
    response before it. *)
Theorem answers_stable
    (function : string) (args : list string) (key s : string)
    (more : list string) (w : World) :
  function ≠ "initCert" →
  (outcome w = None → outcome (Invoke function args w).2 = None →
     (readCert [key] (Invoke function args w).2).1 = (readCert [key] w).1)
  ∧ (calm (S (length (runQuery (selector (ToLower s)) (ledger w)))) w →
     calm (S (length (runQuery (selector (ToLower s)) (ledger w))))
          (Invoke function args w).2 →
     (queryCertByOwner (s :: more) (Invoke function args w).2).1
     = (queryCertByOwner (s :: more) w).1).
Proof.
  intros Hf. pose proof (Invoke_ledger function args w Hf) as Hl. split.
  - intros Ho Ho'. rewrite !readCert_one, Ho, Ho', Hl. reflexivity.
  - intros Hc Hc'. rewrite !queryCertByOwner_spec. cbn [fst].
    rewrite (getQueryResult_calm _ w Hc).
    rewrite getQueryResult_calm by (rewrite Hl; exact Hc').
    rewrite Hl. reflexivity.
Qed.

Lemma initCert_response (args : list string) (w : World) :
  (∃ msg, (initCert args w).1 = shim_Error msg)
  ∨ (initCert args w).1 = shim_Success None.
Proof.
  destruct (decide (length args = 4%nat)) as [Hlen|Hlen].
  2:{ rewrite initCert_wrong_count by assumption. left. eexists. reflexivity. }
  rewrite (four_args args Hlen).
  create_cases; try (left; eexists; reflexivity); right; reflexivity.
Qed.

Lemma readCert_response (args : list string) (w : World) :
  (∃ msg, (readCert args w).1 = shim_Error msg)
  ∨ (∃ v, (readCert args w).1 = shim_Success (Some v)).
Proof.
  unfold readCert. destruct (negb _); [left; eexists; reflexivity|].
  rewrite GetState_spec. destruct (outcome w); [left; eexists; reflexivity|].
  cbn [ledger advance]. destruct (ledger w !! _).
  - right. eexists. reflexivity.
  - left. eexists. reflexivity.
Qed.

Lemma queryCertByOwner_response (args : list string) (w : World) :
  (∃ msg, (queryCertByOwner args w).1 = shim_Error msg)
  ∨ (∃ v, (queryCertByOwner args w).1 = shim_Success (Some v)).
Proof.
  destruct args as [|s more]; [left; eexists; reflexivity|].
  rewrite queryCertByOwner_spec. cbn [fst].
  destruct (getQueryResultForQueryString _ w).1.
  - right. eexists. reflexivity.
  - left. eexists. reflexivity.
Qed.

(** X18: the response of every invocation is a success (status 200, no
    message) or an error (status 500, no payload).  A Create never carries a
    payload; a ReadByID or QueryByOwner that succeeds always carries one. *)
Theorem response_shape (function : string) (args : list string) (w : World) :
  ((Status (Invoke function args w).1 = OK
    ∧ Message (Invoke function args w).1 = "")
   ∨ (Status (Invoke function args w).1 = ERROR
      ∧ Payload (Invoke function args w).1 = None))
  ∧ (function = "initCert" → Payload (Invoke function args w).1 = None)
  ∧ (function = "readCert" ∨ function = "queryCertByOwner" →
     Status (Invoke function args w).1 = OK →
     is_Some (Payload (Invoke function args w).1)).
Proof.
  destruct (Invoke_cases function args w)
    as [[E ->]|[[E ->]|[[E ->]|(E1 & E2 & E3 & ->)]]].
  - destruct (initCert_response args (Println ("invoke is running " +:+ function) w))
      as [[msg ->]| ->].
    + split; [right; split; reflexivity|]. split; [reflexivity|].
      intros [H|H]; rewrite E in H; discriminate H.
    + split; [left; split; reflexivity|]. split; [reflexivity|].
      intros [H|H]; rewrite E in H; discriminate H.
  - destruct (readCert_response args (Println ("invoke is running " +:+ function) w))
      as [[msg ->]|[v ->]].
    + split; [right; split; reflexivity|].
      split; [intros H; rewrite E in H; discriminate H | discriminate].
    + split; [left; split; reflexivity|].
      split; [intros H; rewrite E in H; discriminate H|].
      intros _ _. eexists. reflexivity.
  - destruct (queryCertByOwner_response args
                (Println ("invoke is running " +:+ function) w))
      as [[msg ->]|[v ->]].
    + split; [right; split; reflexivity|].
      split; [intros H; rewrite E in H; discriminate H | discriminate].
    + split; [left; split; reflexivity|].
      split; [intros H; rewrite E in H; discriminate H|].
      intros _ _. eexists. reflexivity.
  - split; [right; split; reflexivity|].
    split; [intros H; contradiction | intros [H|H]; contradiction].
Qed.

End Dispatch.

(** ** Index and records over the whole ledger *)

Section Invariant.
Context {P : Platform}.

Lemma indexed_ledger (w w' : World) (d c : string) :
  ledger w' = ledger w → indexed w' d c ↔ indexed w d c.
Proof. intros E. unfold indexed. rewrite E. reflexivity. Qed.

Lemma stored_ledger (w w' : World) (c d : string) :
  ledger w' = ledger w → stored w' c d ↔ stored w c d.
Proof. intros E. unfold stored. rewrite E. reflexivity. Qed.

Lemma consistent_ledger (w w' : World) :
  ledger w' = ledger w → consistent w → consistent w'.
Proof.
  intros E [H1 H2]. split.
  - intros d c Hi. apply (stored_ledger w w' c d E), H1,
      (indexed_ledger w w' d c E), Hi.
  - intros key Hkey. rewrite E in Hkey.
    destruct (H2 key Hkey) as [Hk|(d & Hs & Hi)]; [left; exact Hk|].
    right. exists d. split.
    + apply (stored_ledger w w' key d E), Hs.
    + apply (indexed_ledger w w' d key E), Hi.
Qed.

Lemma consistent_empty (w : World) : ledger w = ∅ → consistent w.
Proof.
  intros E. split.
  - intros d c (k & _ & [v Hv]). rewrite E, lookup_empty in Hv. discriminate.
  - intros key [v Hv]. rewrite E, lookup_empty in Hv. discriminate.
Qed.

Lemma torn_four (c d n o : string) (w : World) :
  torn "initCert" [c; d; n; o] w
  ↔ (len c <=? 0) = false ∧ (len d <=? 0) = false
    ∧ (len n <=? 0) = false ∧ (len o <=? 0) = false
    ∧ (∃ iD, strconv.Atoi n = Ok iD)
    ∧ outcomeAt 0 w = None ∧ ledger w !! c = None ∧ outcomeAt 1 w = None
    ∧ ((∃ err, CreateCompositeKey "degree~name" [ToLower d; c] = Err err)
       ∨ (∃ err, outcomeAt 2 w = Some err)).
Proof.
  unfold torn, wellFormed. cbn [nth]. split.
  - intros (_ & (_ & Hne & Hn) & O0 & Hf & O1 & Hk).
    pose proof (Hne 0%nat ltac:(lia)) as H0.
    pose proof (Hne 1%nat ltac:(lia)) as H1.
    pose proof (Hne 2%nat ltac:(lia)) as H2.
    pose proof (Hne 3%nat ltac:(lia)) as H3.
    cbn [nth] in H0, H1, H2, H3. apply len_le_0_false in H0, H1, H2, H3.
    repeat split; assumption.
  - intros (H0 & H1 & H2 & H3 & Hn & O0 & Hf & O1 & Hk).
    apply len_le_0_false in H0, H1, H2, H3.
    repeat split; try assumption.
    intros i Hi. destruct i as [|[|[|[|i]]]]; cbn [nth]; try assumption. lia.
Qed.

(** What a Create does to the ledger: nothing; or, stopping between its
    writes, it adds the record alone; or it adds the record and its index
    entry. *)
Lemma initCert_effect_four (c d n o : string) (w : World) :
  (¬ torn "initCert" [c; d; n; o] w
   ∧ ledger (initCert [c; d; n; o] w).2 = ledger w)
  ∨ (torn "initCert" [c; d; n; o] w ∧ ledger w !! c = None
     ∧ ∃ iD o', ledger (initCert [c; d; n; o] w).2
                = <[c := document (mkStudent "student" c (ToLower d) iD o')]>
                    (ledger w))
  ∨ (¬ torn "initCert" [c; d; n; o] w ∧ ledger w !! c = None
     ∧ ∃ iD o' k,
         CreateCompositeKey "degree~name" [ToLower d; c] = Ok k
         ∧ ledger (initCert [c; d; n; o] w).2
           = <[k := nul]>
               (<[c := document (mkStudent "student" c (ToLower d) iD o')]>
                  (ledger w))).
Proof.
  rewrite torn_four.
  create_cases; outcomes.
  all: first
    [ solve [ left; split; [|reflexivity];
              intros (?&?&?&?&[? ?]&?&?&?&[[? ?]|[? ?]]); congruence ]
    | solve [ right; left; split;
              [ repeat split; eauto
              | split; [reflexivity|]; eexists _, _; reflexivity ] ]
    | solve [ right; right; split;
              [ intros (?&?&?&?&[? ?]&?&?&?&[[? ?]|[? ?]]); congruence
              | split; [reflexivity|]; eexists _, _, _;
                split; reflexivity ] ] ].
Qed.

Lemma initCert_effect (args : list string) (w : World) :
  (¬ torn "initCert" args w ∧ ledger (initCert args w).2 = ledger w)
  ∨ (torn "initCert" args w ∧ ledger w !! nth 0 args "" = None
     ∧ ∃ iD o, ledger (initCert args w).2
               = <[nth 0 args "" :=
                     document (mkStudent "student" (nth 0 args "")
                                         (ToLower (nth 1 args "")) iD o)]>
                   (ledger w))
  ∨ (¬ torn "initCert" args w ∧ ledger w !! nth 0 args "" = None
     ∧ ∃ iD o k,
         CreateCompositeKey "degree~name"
           [ToLower (nth 1 args ""); nth 0 args ""] = Ok k
         ∧ ledger (initCert args w).2
           = <[k := nul]>
               (<[nth 0 args "" :=
                    document (mkStudent "student" (nth 0 args "")
                                        (ToLower (nth 1 args "")) iD o)]>
                  (ledger w))).
Proof.
  destruct (decide (length args = 4%nat)) as [Hlen|Hlen].
  - pose proof (initCert_effect_four (nth 0 args "") (nth 1 args "")
                  (nth 2 args "") (nth 3 args "") w) as H.
    rewrite <- (four_args args Hlen) in H. exact H.
  - left. rewrite initCert_wrong_count by assumption.
    split; [|reflexivity]. intros (_ & (Hl & _) & _). contradiction.
Qed.

Lemma Invoke_effect (function : string) (args : list string) (w : World) :
  (¬ torn function args w ∧ ledger (Invoke function args w).2 = ledger w)
  ∨ (torn function args w ∧ ledger w !! nth 0 args "" = None
     ∧ ∃ iD o, ledger (Invoke function args w).2
               = <[nth 0 args "" :=
                     document (mkStudent "student" (nth 0 args "")
                                         (ToLower (nth 1 args "")) iD o)]>
                   (ledger w))
  ∨ (¬ torn function args w ∧ ledger w !! nth 0 args "" = None
     ∧ ∃ iD o k,
         CreateCompositeKey "degree~name"
           [ToLower (nth 1 args ""); nth 0 args ""] = Ok k
         ∧ ledger (Invoke function args w).2
           = <[k := nul]>
               (<[nth 0 args "" :=
                    document (mkStudent "student" (nth 0 args "")
                                        (ToLower (nth 1 args "")) iD o)]>
                  (ledger w))).
Proof.
  destruct (decide (function = "initCert")) as [->|Hf].
  - destruct (Invoke_cases "initCert" args w)
      as [[_ ->]|[[E _]|[[E _]|(E & _)]]]; try discriminate; [|contradiction].
    exact (initCert_effect args (Println "invoke is running initCert" w)).
  - left. split; [|apply Invoke_ledger, Hf].
    intros (E & _). contradiction.
Qed.

(** A Create that writes its record and its index entry keeps index and
    records in agreement. *)
Lemma consistent_both (w w' : World) (c d : string) (iD : Z) (o k : string) :
  keysReversible → keysApart →
  consistent w → ledger w !! c = None →
  CreateCompositeKey "degree~name" [d; c] = Ok k →
  ledger w' = <[k := nul]> (<[c := document (mkStudent "student" c d iD o)]>
                              (ledger w)) →
  consistent w'.
Proof.
  intros Hrev Hapart [H1 H2] Hfresh Hk E.
  assert (Hkc : k ≠ c) by exact (Hapart _ _ _ _ _ _ Hk Hk).
  split.
  - intros d' c' (k' & Hk' & Hsome). rewrite E in Hsome.
    destruct (decide (k' = k)) as [->|Hne].
    + destruct (Hrev _ _ _ _ _ Hk' Hk) as [-> ->].
      exists iD, o. rewrite E, lookup_insert_ne by exact Hkc.
      apply lookup_insert_eq.
    + rewrite lookup_insert_ne in Hsome by congruence.
      destruct (decide (k' = c)) as [->|Hne'].
      { exfalso. exact (Hapart _ _ _ _ _ _ Hk' Hk eq_refl). }
      rewrite lookup_insert_ne in Hsome by congruence.
      destruct (H1 d' c') as (iD' & o' & Hs); [exists k'; auto|].
      exists iD', o'. rewrite E.
      rewrite lookup_insert_ne by exact (Hapart _ _ _ _ _ _ Hk Hk').
      rewrite lookup_insert_ne by congruence. exact Hs.
  - intros key Hsome. rewrite E in Hsome.
    destruct (decide (key = k)) as [->|Hne]; [left; exists d, c; exact Hk|].
    rewrite lookup_insert_ne in Hsome by congruence.
    destruct (decide (key = c)) as [->|Hne'].
    + right. exists d. split.
      * exists iD, o. rewrite E, lookup_insert_ne by exact Hkc.
        apply lookup_insert_eq.
      * exists k. split; [exact Hk|]. rewrite E, lookup_insert_eq. eauto.
    + rewrite lookup_insert_ne in Hsome by congruence.
      destruct (H2 key Hsome) as [Hi|(d0 & (iD0 & o0 & Hs) & k0 & Hk0 & Hs0)];
        [left; exact Hi|].
      right. exists d0. split.
      * exists iD0, o0. rewrite E, !lookup_insert_ne by congruence. exact Hs.
      * exists k0. split; [exact Hk0|]. rewrite E.
        destruct (decide (k0 = k)) as [->|?];
          [rewrite lookup_insert_eq; eauto|].
        rewrite lookup_insert_ne by congruence.
        destruct (decide (k0 = c)) as [->|?];
          [rewrite lookup_insert_eq; eauto|].
        rewrite lookup_insert_ne by congruence. exact Hs0.
Qed.

(** A record written alone, under a key that was free, has no index
    entry. *)
Lemma record_alone (w w' : World) (c d : string) (iD : Z) (o : string) :
  keysApart → consistent w → ledger w !! c = None →
  ledger w' = <[c := document (mkStudent "student" c d iD o)]> (ledger w) →
  stored w' c d ∧ ¬ indexed w' d c.
Proof.
  intros Hapart [H1 _] Hfresh E. split.
  - exists iD, o. rewrite E. apply lookup_insert_eq.
  - intros (k & Hk & Hsome). rewrite E in Hsome.
    destruct (decide (k = c)) as [->|Hne].
    + exact (Hapart _ _ _ _ _ _ Hk Hk eq_refl).
    + rewrite lookup_insert_ne in Hsome by congruence.
      destruct (H1 d c) as (iD' & o' & Hs); [exists k; auto|].
      rewrite Hfresh in Hs. discriminate.
Qed.

Lemma run_consistent (calls : list (string * list string)) (w : World) :
  keysReversible → keysApart →
  consistent w → intact calls w → consistent (run calls w).
Proof.
  intros Hrev Hapart. revert w.
  induction calls as [|[function args] rest IH]; intros w Hw Hrun; [exact Hw|].
  destruct Hrun as [Hnt Hrest]. cbn [run]. apply IH; [|exact Hrest].
  destruct (Invoke_effect function args w)
    as [[_ E]|[[Ht _]|(_ & Hfresh & iD & o & k & Hk & E)]].
  - exact (consistent_ledger w _ E Hw).
  - contradiction.
  - exact (consistent_both w _ _ _ iD o k Hrev Hapart Hw Hfresh Hk E).
Qed.

(** C1, as amended: index and records agree in the empty store, and they
    still agree after any sequence of invocations (Create, ReadByID,
    QueryByOwner or an unknown verb, with any arguments and any store call
    failing) in which no Create stops between its two writes: every index
    entry (index name, degree, certificateID) has its record, with that
    degree, under the certificateID, and every record has its index entry.
    This is for a key encoding that can be undone and that keeps composite
    keys apart from certificateIDs.  A Create that does stop between its
    writes, because the index key cannot be built or the write of it fails,
    leaves its record stored without index entry. *)
Theorem index_in_step :
  (∀ w, ledger w = ∅ → consistent w)
  ∧ (keysReversible → keysApart →
     ∀ calls w, consistent w → intact calls w → consistent (run calls w))
  ∧ (keysApart →
     ∀ args w, consistent w → torn "initCert" args w →
       stored (Invoke "initCert" args w).2
              (nth 0 args "") (ToLower (nth 1 args ""))
       ∧ ¬ indexed (Invoke "initCert" args w).2
                   (ToLower (nth 1 args "")) (nth 0 args "")).
Proof.
  split; [exact consistent_empty|]. split.
  - intros Hrev Hapart calls w. apply run_consistent; assumption.
  - intros Hapart args w Hw Ht.
    destruct (Invoke_effect "initCert" args w)
      as [[Hn _]|[(_ & Hfresh & iD & o & E)|(Hn & _)]]; try contradiction.
    exact (record_alone w _ _ _ iD o Hapart Hw Hfresh E).
Qed.

End Invariant.

(** ** The reference platform *)

Lemma length_append (s1 s2 : string) :
  String.length (s1 +:+ s2) = (String.length s1 + String.length s2)%nat.
Proof.
  induction s1 as [|c s1 IH]; [reflexivity|].
  rewrite append_cons. cbn [String.length]. rewrite IH. reflexivity.
Qed.

Lemma joinAttributes_longer (ck : string) (attributes : list string) (k : string) :
  Fabric.joinAttributes ck attributes = Ok k →
  (String.length ck ≤ String.length k)%nat
  ∧ ∀ att, In att attributes → (String.length att < String.length k)%nat.
Proof.
  revert ck. induction attributes as [|a rest IH]; intros ck H.
  - cbn in H. injection H as <-. split; [lia | intros att []].
  - cbn [Fabric.joinAttributes] in H.
    destruct (Fabric.validateCompositeKeyAttribute a); [|discriminate].
    destruct (IH _ H) as [Hck Hrest].
    rewrite !length_append in Hck. cbn [String.length nul] in Hck.
    split; [lia|]. intros att [<-|Hin]; [lia | apply Hrest, Hin].
Qed.

(** On the reference platform a composite key is never one of the
    attributes it was built from: it is longer than each of them. *)
Lemma createCompositeKey_not_attribute
    (objectType : string) (attributes : list string) (k : string) :
  Fabric.createCompositeKey objectType attributes = Ok k → ¬ In k attributes.
Proof.
  unfold Fabric.createCompositeKey.
  destruct (Fabric.validateCompositeKeyAttribute objectType); [|discriminate].
  intros H Hin. destruct (joinAttributes_longer _ _ _ H) as [_ Hlt].
  specialize (Hlt k Hin). lia.
Qed.

(** *** Its key encoding *)

Lemma cont_not_0 (b : Z) : Fabric.cont b = true → b ≠ 0.
Proof.
  unfold Fabric.cont. rewrite andb_true_iff, !Z.leb_le. lia.
Qed.

Ltac bytes_not_0 :=
  unfold Fabric.cont in *;
  repeat match goal with
         | H : _ && _ = true |- _ => apply andb_prop in H as [? ?]
         | H : (_ <=? _) = true |- _ => apply Z.leb_le in H
         | H : (if ?b then _ else _) = true |- _ => destruct b
         end.

Lemma validRunes_not_0 (n : nat) (bs : list Z) :
  (length bs ≤ n)%nat → Fabric.validRunes bs = true → ¬ In 0 bs.
Proof.
  revert bs. induction n as [|n IH]; intros bs Hlen H.
  { destruct bs; [intros []|simpl in Hlen; lia]. }
  destruct bs as [|b0 t0]; [intros []|]. cbn [Fabric.validRunes] in H.
  cbn [length] in Hlen.
  destruct (b0 <? 128) eqn:E0.
  { apply andb_prop in H as [Hz Ht]. intros [->|Hin]; [discriminate Hz|].
    exact (IH t0 ltac:(lia) Ht Hin). }
  apply Z.ltb_ge in E0.
  destruct t0 as [|b1 t1]; [discriminate|]. cbn [length] in Hlen.
  destruct ((194 <=? b0) && (b0 <=? 223)).
  { apply andb_prop in H as [Hc Ht]. apply cont_not_0 in Hc.
    intros [?|[?|Hin]]; try lia. exact (IH t1 ltac:(lia) Ht Hin). }
  destruct t1 as [|b2 t2]; [discriminate|]. cbn [length] in Hlen.
  destruct ((224 <=? b0) && (b0 <=? 239)).
  { apply andb_prop in H as [H Ht]. bytes_not_0.
    all: intros [?|[?|[?|Hin]]]; try lia; exact (IH t2 ltac:(lia) Ht Hin). }
  destruct t2 as [|b3 t3]; [discriminate|]. cbn [length] in Hlen.
  destruct ((240 <=? b0) && (b0 <=? 244)); [|discriminate].
  apply andb_prop in H as [H Ht]. apply andb_prop in H as [H _]. bytes_not_0.
  all: intros [?|[?|[?|[?|Hin]]]]; try lia; exact (IH t3 ltac:(lia) Ht Hin).
Qed.

(** An attribute that the key encoding accepts holds no zero byte. *)
Lemma valid_attribute_no_nul (s : string) :
  Fabric.validateCompositeKeyAttribute s = true → ¬ hasNul s.
Proof.
  unfold Fabric.validateCompositeKeyAttribute, hasNul. intros H Hin.
  apply (validRunes_not_0 _ _ (le_n _) H).
  change 0 with (byteOf "000"%char). apply in_map, Hin.
Qed.

Lemma append_inv_head (s a b : string) : s +:+ a = s +:+ b → a = b.
Proof.
  induction s as [|c s IH]; [rewrite !append_nil_l; auto|].
  rewrite !append_cons. intros H. injection H as H. auto.
Qed.

(** A text is cut at its first zero byte in one way only. *)
Lemma cut_at_nul (s1 s2 r1 r2 : string) :
  ¬ hasNul s1 → ¬ hasNul s2 →
  s1 +:+ nul +:+ r1 = s2 +:+ nul +:+ r2 → s1 = s2 ∧ r1 = r2.
Proof.
  revert s2. induction s1 as [|a s1 IH]; intros [|b s2] H1 H2 E.
  - rewrite !append_nil_l in E. apply append_inv_head in E. auto.
  - exfalso. apply H2. rewrite append_nil_l, !append_cons in E.
    injection E as <- _. left. reflexivity.
  - exfalso. apply H1. rewrite append_nil_l, !append_cons in E.
    injection E as -> _. left. reflexivity.
  - rewrite !append_cons in E. injection E as <- E.
    destruct (IH s2) as [-> ->]; auto.
    + intros Hin. apply H1. right. exact Hin.
    + intros Hin. apply H2. right. exact Hin.
Qed.

(** The index key of a degree and a certificateID, on the reference
    platform. *)
Lemma createCompositeKey_pair (d c k : string) :
  Fabric.createCompositeKey "degree~name" [d; c] = Ok k →
  ¬ hasNul d ∧ ¬ hasNul c
  ∧ k = nul +:+ "degree~name" +:+ nul +:+ d +:+ nul +:+ c +:+ nul.
Proof.
  unfold Fabric.createCompositeKey.
  change (Fabric.validateCompositeKeyAttribute "degree~name") with true.
  cbn [Fabric.joinAttributes].
  destruct (Fabric.validateCompositeKeyAttribute d) eqn:Hd; [|discriminate].
  destruct (Fabric.validateCompositeKeyAttribute c) eqn:Hc; [|discriminate].
  intros H. injection H as <-.
  split; [apply valid_attribute_no_nul, Hd|].
  split; [apply valid_attribute_no_nul, Hc|].
  rewrite !append_assoc. reflexivity.
Qed.

Lemma Fabric_keysReversible : keysReversible (P := Fabric.platform).
Proof.
  intros d c d' c' k H H'.
  apply createCompositeKey_pair in H as (Hd & Hc & ->).
  apply createCompositeKey_pair in H' as (Hd' & Hc' & E).
  apply (append_inv_head nul), (append_inv_head "degree~name"),
    (append_inv_head nul) in E.
  apply cut_at_nul in E as [<- E]; [|assumption..].
  split; [reflexivity|].
  rewrite <- (append_nil_r nul) in E.
  apply cut_at_nul in E as [<- _]; [reflexivity|assumption..].
Qed.

Lemma Fabric_keysApart : keysApart (P := Fabric.platform).
Proof.
  intros d c k d' c' k' H H' <-.
  apply createCompositeKey_pair in H as (_ & _ & E).
  apply createCompositeKey_pair in H' as (_ & Hc' & _).
  apply Hc'. rewrite E. left. reflexivity.
Qed.

(** ** The chaincode at work on the reference platform *)

Section Examples.
Import Scenario.
#[local] Existing Instance Fabric.platform.

Example invoke_create :
  Invoke "initCert" ["as23df"; "ME"; "4674"; "hussein"] Fabric.genesis
  = initCert ["as23df"; "ME"; "4674"; "hussein"]
             (Println "invoke is running initCert" Fabric.genesis).
Proof. reflexivity. Qed.

Example invoke_unknown :
  (Invoke "deleteCert" ["as23df"] enrolled).1
  = shim_Error "Received unknown function invocation".
Proof. reflexivity. Qed.

Example enrolled_ledger :
  map_to_list (ledger enrolled)
  = [("as23df", husseinRecord); (husseinIndexKey, nul)].
Proof. vm_compute. reflexivity. Qed.

(** Three refusals: two arguments; an empty second argument (the fourth is
    empty too, and is not the one named); a third argument that is not a
    number. *)
Lemma create_validation_order_witness :
  (length ["as23df"; "ME"] ≠ 4%nat
   ∧ (initCert ["as23df"; "ME"] Fabric.genesis).1
     = shim_Error "Incorrect number of arguments. Expecting 4")
  ∧ (initCert ["as23df"; ""; "4674"; ""] Fabric.genesis).1
    = shim_Error "2nd argument must be a non-empty string"
  ∧ (initCert ["as23df"; "ME"; "n/a"; "hussein"] Fabric.genesis).1
    = shim_Error "3rd argument must be a numeric string".
Proof.
  split; [split; [simpl; lia|] | split].
  - apply (create_validation_order ["as23df"; "ME"] Fabric.genesis).
    simpl; lia.
  - apply (create_validation_order ["as23df"; ""; "4674"; ""] Fabric.genesis)
      with (i := 1%nat).
    + reflexivity.
    + lia.
    + reflexivity.
    + intros j Hj. destruct j; [discriminate | lia].
  - apply (create_validation_order ["as23df"; "ME"; "n/a"; "hussein"]
                                   Fabric.genesis).
    + reflexivity.
    + intros i Hi. destruct i as [|[|[|[|i]]]]; try discriminate. lia.
    + intros n. vm_compute. discriminate.
Defined.

Lemma create_write_count_witness :
  (Status (initCert ["as23df"; "ME"; "4674"; "hussein"] Fabric.genesis).1 = OK
   ∧ writes (journal (initCert ["as23df"; "ME"; "4674"; "hussein"]
                               Fabric.genesis).2) = 2%nat)
  ∧ (rejected ["as23df"; "ME"; "n/a"; "hussein"] enrolled
     ∧ writes (journal (initCert ["as23df"; "ME"; "n/a"; "hussein"] enrolled).2)
       = writes (journal enrolled)).
Proof.
  split.
  - split; [reflexivity|].
    destruct (create_write_count ["as23df"; "ME"; "4674"; "hussein"]
                                 Fabric.genesis) as [H _].
    destruct (H eq_refl) as (iD & k & _ & _ & _ & Hw). exact Hw.
  - assert (Hrej : rejected ["as23df"; "ME"; "n/a"; "hussein"] enrolled).
    { right. right. left. intros n. vm_compute. discriminate. }
    split; [exact Hrej|].
    destruct (create_write_count ["as23df"; "ME"; "n/a"; "hussein"] enrolled)
      as [_ H].
    destruct (H Hrej) as (_ & Hw & _). exact Hw.
Defined.

Lemma duplicate_create_rejected_witness :
  is_Some (ledger enrolled !! "as23df")
  ∧ (initCert ["as23df"; "PhD"; "7"; "Hussein"] enrolled).1
    = shim_Error "This student already exists: as23df"
  ∧ ledger (initCert ["as23df"; "PhD"; "7"; "Hussein"] enrolled).2
    = ledger enrolled.
Proof.
  assert (H : is_Some (ledger enrolled !! "as23df"))
    by (exists husseinRecord; vm_compute; reflexivity).
  split; [exact H|].
  destruct (duplicate_create_rejected "as23df" "PhD" "7" "Hussein" enrolled H)
    as (_ & Hl & _ & Hd).
  split; [|exact Hl].
  apply Hd; try discriminate.
  - exists 7. reflexivity.
  - reflexivity.
Defined.

(** C4 as stated fails: on a certificateID that is present, a Create whose
    third argument is not a number is refused for that, before the key is
    looked up. *)
Lemma duplicate_create_counterexample :
  is_Some (ledger enrolled !! "as23df")
  ∧ (initCert ["as23df"; "ME"; "n/a"; "Hussein"] enrolled).1
    = shim_Error "3rd argument must be a numeric string"
  ∧ (initCert ["as23df"; "ME"; "n/a"; "Hussein"] enrolled).1
    ≠ shim_Error ("This student already exists: " +:+ "as23df").
Proof.
  split; [exists husseinRecord; vm_compute; reflexivity|].
  split; [vm_compute; reflexivity|].
  vm_compute. discriminate.
Qed.

(** The query for the owner R&D, whose record holds an escape: the result
    is the array of that one record, and it is a JSON text. *)
Lemma query_result_array_witness :
  let q := selector ("r" +:+ bsl +:+ "u0026d") in
  (calm (S (length (runQuery q (ledger faculty)))) faculty
   ∧ Forall (fun kv => characters (Key kv) = true ∧ Json (Value kv))
            (runQuery q (ledger faculty)))
  ∧ (getQueryResultForQueryString q faculty).1
    = Ok ("[{" +:+ dq +:+ "Key" +:+ dq +:+ ":" +:+ dq +:+ "rd01" +:+ dq +:+
          ", " +:+ dq +:+ "Record" +:+ dq +:+ ":" +:+ labRecord +:+ "}]")
  ∧ Json ("[{" +:+ dq +:+ "Key" +:+ dq +:+ ":" +:+ dq +:+ "rd01" +:+ dq +:+
          ", " +:+ dq +:+ "Record" +:+ dq +:+ ":" +:+ labRecord +:+ "}]").
Proof.
  intros q.
  assert (Hq : runQuery q (ledger faculty) = [mkKV "rd01" labRecord])
    by (vm_compute; reflexivity).
  assert (Hcalm : calm (S (length (runQuery q (ledger faculty)))) faculty)
    by (unfold calm; vm_compute; constructor).
  assert (Hdoc : Json labRecord).
  { apply (Json_object
             [ "" +:+ dq +:+ "docType" +:+ dq +:+ "" +:+ ":" +:+
               (dq +:+ "student" +:+ dq);
               "" +:+ dq +:+ "cert" +:+ dq +:+ "" +:+ ":" +:+ (dq +:+ "rd01" +:+ dq);
               "" +:+ dq +:+ "degree" +:+ dq +:+ "" +:+ ":" +:+ (dq +:+ "phd" +:+ dq);
               "" +:+ dq +:+ "iD" +:+ dq +:+ "" +:+ ":" +:+ "12";
               "" +:+ dq +:+ "owner" +:+ dq +:+ "" +:+ ":" +:+
               (dq +:+ ("r" +:+ bsl +:+ "u0026d") +:+ dq) ]).
    repeat match goal with |- Forall _ _ => constructor end.
    all: apply Json_member; try reflexivity.
    all: first [apply Json_string; reflexivity | apply Json_number; reflexivity]. }
  assert (Hall : Forall (fun kv => characters (Key kv) = true ∧ Json (Value kv))
                        (runQuery q (ledger faculty))).
  { rewrite Hq. constructor; [split; [reflexivity | exact Hdoc] | constructor]. }
  split; [exact (conj Hcalm Hall)|].
  destruct (query_result_array q faculty Hcalm) as (Hout & _ & _ & Hjson).
  destruct (Hjson Hall) as (out & Hout' & Hj).
  rewrite Hout in Hout'. rewrite Hq in Hout'. injection Hout' as <-.
  split; [rewrite Hout, Hq; reflexivity | exact Hj].
Defined.

(** C5 as stated fails: the element written for the one record of the
    ledger has a blank after the comma that follows its Key member. *)
Lemma query_result_array_counterexample :
  runQuery (selector "hussein") (ledger enrolled) = [mkKV "as23df" husseinRecord]
  ∧ calm 2 enrolled
  ∧ (getQueryResultForQueryString (selector "hussein") enrolled).1
    ≠ Ok (claimedArray [mkKV "as23df" husseinRecord]).
Proof.
  split; [vm_compute; reflexivity|].
  split; [unfold calm; vm_compute; constructor|].
  vm_compute. discriminate.
Qed.

Lemma read_by_id_witness :
  (outcome unreachable = Some "peer unreachable"
   ∧ (readCert ["as23df"] unreachable).1
     = shim_Error ("{" +:+ dq +:+ "Error" +:+ dq +:+ ":" +:+ dq +:+
                   "Failed to get state for as23df" +:+ dq +:+ "}"))
  ∧ (ledger Fabric.genesis !! "as23df" = None
     ∧ (readCert ["as23df"] Fabric.genesis).1
       = shim_Error ("{" +:+ dq +:+ "Error" +:+ dq +:+ ":" +:+ dq +:+
                     "student does not exist: as23df" +:+ dq +:+ "}"))
  ∧ (ledger enrolled !! "as23df" = Some husseinRecord
     ∧ (readCert ["as23df"] enrolled).1 = shim_Success (Some husseinRecord)).
Proof.
  split; [|split].
  - split; [reflexivity|].
    destruct (read_by_id "as23df" unreachable) as (H & _).
    exact (H "peer unreachable" eq_refl).
  - split; [reflexivity|].
    destruct (read_by_id "as23df" Fabric.genesis) as (_ & H & _).
    exact (H eq_refl eq_refl).
  - assert (Hv : ledger enrolled !! "as23df" = Some husseinRecord)
      by (vm_compute; reflexivity).
    split; [exact Hv|].
    destruct (read_by_id "as23df" enrolled) as (_ & _ & H & _).
    exact (H husseinRecord eq_refl Hv).
Defined.

Lemma create_then_read_witness :
  (Status (initCert ["as23df"; "ME"; "4674"; "hussein"] Fabric.genesis).1 = OK
   ∧ outcomeAt 2 Fabric.genesis = None
   ∧ (readCert ["as23df"] enrolled).1 = shim_Success (Some husseinRecord)
   ∧ ledger enrolled !! husseinIndexKey = Some nul)
  ∧ (Status (initCert ["as23df"; "ME"; "4674"; "hussein"] indexless).1 = OK
     ∧ (readCert ["as23df"]
          (initCert ["as23df"; "ME"; "4674"; "hussein"] indexless).2).1
       = shim_Success (Some husseinRecord)).
Proof.
  assert (Hok : Status (initCert ["as23df"; "ME"; "4674"; "hussein"]
                                 Fabric.genesis).1 = OK) by reflexivity.
  assert (Hidx : outcomeAt 2 Fabric.genesis = None) by reflexivity.
  assert (Hok' : Status (initCert ["as23df"; "ME"; "4674"; "hussein"]
                                  indexless).1 = OK) by reflexivity.
  split.
  - split; [exact Hok|]. split; [exact Hidx|].
    destruct (create_then_read "as23df" "ME" "4674" "hussein" Fabric.genesis Hok)
      as (iD & k & Hn & Hk & Hread & Hentry).
    vm_compute in Hn. injection Hn as <-.
    vm_compute in Hk. injection Hk as <-.
    split; [apply Hread; [discriminate | reflexivity] | exact (Hentry Hidx)].
  - split; [exact Hok'|].
    destruct (create_then_read "as23df" "ME" "4674" "hussein" indexless Hok')
      as (iD & k & Hn & Hk & Hread & _).
    vm_compute in Hn. injection Hn as <-.
    vm_compute in Hk. injection Hk as <-.
    apply Hread; [discriminate | reflexivity].
Defined.

(** C7 as stated fails: behind a peer that refuses the write of the index
    key, Create returns success and the ledger holds the record alone. *)
Lemma create_then_read_counterexample :
  Status (initCert ["as23df"; "ME"; "4674"; "hussein"] indexless).1 = OK
  ∧ CreateCompositeKey "degree~name" ["me"; "as23df"] = Ok husseinIndexKey
  ∧ ledger (initCert ["as23df"; "ME"; "4674"; "hussein"] indexless).2
      !! husseinIndexKey = None
  ∧ map_to_list (ledger (initCert ["as23df"; "ME"; "4674"; "hussein"]
                                  indexless).2)
    = [("as23df", husseinRecord)].
Proof. repeat split; vm_compute; reflexivity. Qed.

Lemma index_write_error_discarded_witness :
  (strconv.Atoi "4674" = Ok 4674
   ∧ ledger indexless !! "as23df" = None
   ∧ CreateCompositeKey "degree~name" [ToLower "ME"; "as23df"] = Ok husseinIndexKey
   ∧ script indexless = [None; None; Some "write refused"])
  ∧ (initCert ["as23df"; "ME"; "4674"; "hussein"] indexless).1 = shim_Success None
  ∧ ledger (initCert ["as23df"; "ME"; "4674"; "hussein"] indexless).2
      !! husseinIndexKey = None.
Proof.
  split; [repeat split|].
  destruct (index_write_error_discarded
              "as23df" "ME" "4674" "hussein" 4674 husseinIndexKey
              "write refused" [] indexless)
    as (Hr & _ & _ & Hk); try reflexivity; try discriminate.
  split; [exact Hr|].
  rewrite Hk by discriminate. reflexivity.
Defined.

Lemma owner_query_case_insensitive_witness :
  (∀ t, strings.isASCII t = false → ToLower (unicodeLower t) = unicodeLower t)
  ∧ queryCertByOwner ["hussein"] enrolled = queryCertByOwner ["HUSSEIN"] enrolled
  ∧ Payload (queryCertByOwner ["HUSSEIN"] enrolled).1
    = Some ("[" +:+ element (mkKV "as23df" husseinRecord) +:+ "]").
Proof.
  assert (Hu : ∀ t, strings.isASCII t = false
                    → ToLower (unicodeLower t) = unicodeLower t).
  { intros t Ht. unfold ToLower, strings.ToLower. cbn [unicodeLower Fabric.platform].
    rewrite Ht. reflexivity. }
  split; [exact Hu|].
  destruct (owner_query_case_insensitive "HUSSEIN" [] [] enrolled Hu) as [H _].
  split; [exact H|]. vm_compute. reflexivity.
Defined.

(** The iterator is closed after the one result was fetched, and also
    after the fetch of it failed. *)
Lemma iterator_always_closed_witness :
  (outcome enrolled = None
   ∧ journal (getQueryResultForQueryString (selector "hussein") enrolled).2
     = journal enrolled ++ [EvGetQueryResult (selector "hussein");
                            EvNext 0; EvClose 0])
  ∧ (outcome flaky = None
     ∧ (getQueryResultForQueryString (selector "hussein") flaky).1
       = Err "stream broken"
     ∧ journal (getQueryResultForQueryString (selector "hussein") flaky).2
       = [EvGetQueryResult (selector "hussein"); EvNext 0; EvClose 0]
     ∧ cursors (getQueryResultForQueryString (selector "hussein") flaky).2
       = cursors flaky).
Proof.
  split.
  - split; [reflexivity|]. vm_compute. reflexivity.
  - split; [reflexivity|].
    destruct (iterator_always_closed (selector "hussein") flaky) as [H _].
    destruct (H eq_refl) as (h & n & _ & _ & Hc & _).
    split; [vm_compute; reflexivity|].
    split; [vm_compute; reflexivity | exact Hc].
Defined.

(** Six invocations on the empty ledger, among them a Create that is
    turned down as a duplicate: index and records agree at the end.  And a
    Create behind a peer that refuses the write of the index key leaves its
    record without index entry. *)
Lemma index_in_step_witness :
  let calls := [("initCert", ["as23df"; "ME"; "4674"; "hussein"]);
                ("readCert", ["as23df"]);
                ("initCert", ["as23df"; "PhD"; "7"; "Hussein"]);
                ("queryCertByOwner", ["HUSSEIN"]);
                ("deleteCert", ["as23df"]);
                ("initCert", ["rd01"; "PhD"; "12"; "R&D"])] in
  (keysReversible ∧ keysApart
   ∧ consistent Fabric.genesis ∧ intact calls Fabric.genesis
   ∧ consistent indexless
   ∧ torn "initCert" ["as23df"; "ME"; "4674"; "hussein"] indexless)
  ∧ consistent (run calls Fabric.genesis)
  ∧ stored (Invoke "initCert" ["as23df"; "ME"; "4674"; "hussein"] indexless).2
           "as23df" "me"
  ∧ ¬ indexed (Invoke "initCert" ["as23df"; "ME"; "4674"; "hussein"] indexless).2
              "me" "as23df".
Proof.
  intros calls.
  destruct index_in_step as (Hempty & Hrun & Htorn).
  pose proof Fabric_keysReversible as Hrev.
  pose proof Fabric_keysApart as Hapart.
  assert (Hgen : consistent Fabric.genesis) by (apply Hempty; reflexivity).
  assert (Hless : consistent indexless) by (apply Hempty; reflexivity).
  assert (Hint : intact calls Fabric.genesis).
  { cbn [intact calls]. repeat split.
    all: intros (E & _ & _ & _ & _ & [[err H]|[err H]]);
      try discriminate E; vm_compute in H; discriminate H. }
  assert (Ht : torn "initCert" ["as23df"; "ME"; "4674"; "hussein"] indexless).
  { split; [reflexivity|]. split.
    - split; [reflexivity|]. split.
      + intros i Hi. destruct i as [|[|[|[|i]]]]; try discriminate. lia.
      + exists 4674. reflexivity.
    - repeat split. right. exists "write refused". reflexivity. }
  split; [exact (conj Hrev (conj Hapart (conj Hgen (conj Hint (conj Hless Ht)))))|].
  split; [exact (Hrun Hrev Hapart calls Fabric.genesis Hgen Hint)|].
  exact (Htorn Hapart ["as23df"; "ME"; "4674"; "hussein"] indexless Hless Ht).
Defined.

(** C1 as stated fails, on an empty ledger where index and record are in
    step.  A certificateID that holds a zero byte is written as a record,
    and then the index key cannot be built from it: Create returns that
    error and leaves the record without index entry.  And behind a peer
    that refuses the write of the index key, the record of the certificate
    of the specification is left without index entry too. *)
Lemma index_in_step_counterexample :
  let c := "a" +:+ nul +:+ "b" in
  let w1 := (initCert [c; "ME"; "4674"; "hussein"] Fabric.genesis).2 in
  let w2 := (initCert ["as23df"; "ME"; "4674"; "hussein"] indexless).2 in
  (inStep Fabric.genesis "me" c
   ∧ primary w1 c ∧ ¬ indexed w1 "me" c ∧ ¬ inStep w1 "me" c)
  ∧ (inStep indexless "me" "as23df"
     ∧ primary w2 "as23df" ∧ ¬ indexed w2 "me" "as23df"
     ∧ ¬ inStep w2 "me" "as23df").
Proof.
  intros c w1 w2.
  assert (Hp1 : primary w1 c) by (eexists; vm_compute; reflexivity).
  assert (Hi1 : ¬ indexed w1 "me" c).
  { intros (k & Hk & _). vm_compute in Hk. discriminate Hk. }
  assert (Hp2 : primary w2 "as23df") by (eexists; vm_compute; reflexivity).
  assert (Hi2 : ¬ indexed w2 "me" "as23df").
  { intros (k & Hk & [v Hv]). vm_compute in Hk. injection Hk as <-.
    vm_compute in Hv. discriminate Hv. }
  split; split.
  - split.
    + intros (k & _ & [v Hv]). discriminate Hv.
    + intros [v Hv]. discriminate Hv.
  - split; [exact Hp1|]. split; [exact Hi1|].
    intros [_ H]. exact (Hi1 (H Hp1)).
  - split.
    + intros (k & _ & [v Hv]). discriminate Hv.
    + intros [v Hv]. discriminate Hv.
  - split; [exact Hp2|]. split; [exact Hi2|].
    intros [_ H]. exact (Hi2 (H Hp2)).
Qed.

End Examples.

(** ** The further properties at work *)

Section FurtherExamples.
Import Scenario.
#[local] Existing Instance Fabric.platform.

Lemma create_success_iff_witness :
  (wellFormed ["as23df"; "ME"; "4674"; "hussein"]
   ∧ outcomeAt 0 indexless = None
   ∧ ledger indexless !! "as23df" = None
   ∧ outcomeAt 1 indexless = None
   ∧ ∃ k, CreateCompositeKey "degree~name" [ToLower "ME"; "as23df"] = Ok k)
  ∧ Status (initCert ["as23df"; "ME"; "4674"; "hussein"] indexless).1 = OK.
Proof.
  assert (H : wellFormed ["as23df"; "ME"; "4674"; "hussein"]
              ∧ outcomeAt 0 indexless = None
              ∧ ledger indexless !! "as23df" = None
              ∧ outcomeAt 1 indexless = None
              ∧ ∃ k, CreateCompositeKey "degree~name" [ToLower "ME"; "as23df"]
                     = Ok k).
  { split; [|split; [reflexivity|split; [reflexivity|split; [reflexivity|]]]].
    - split; [reflexivity|]. split.
      + intros i Hi. destruct i as [|[|[|[|i]]]]; try discriminate. lia.
      + exists 4674. reflexivity.
    - exists husseinIndexKey. reflexivity. }
  split; [exact H|].
  exact (proj2 (create_success_iff ["as23df"; "ME"; "4674"; "hussein"] indexless) H).
Defined.

Lemma create_lookup_failure_witness :
  (strconv.Atoi "4674" = Ok 4674
   ∧ outcomeAt 0 unreachable = Some "peer unreachable")
  ∧ (initCert ["as23df"; "ME"; "4674"; "hussein"] unreachable).1
    = shim_Error "Failed to get student: peer unreachable"
  ∧ ledger (initCert ["as23df"; "ME"; "4674"; "hussein"] unreachable).2
    = ledger unreachable.
Proof.
  split; [split; reflexivity|].
  assert (H0 : "as23df" ≠ "") by discriminate.
  assert (H1 : "ME" ≠ "") by discriminate.
  assert (H2 : "4674" ≠ "") by discriminate.
  assert (H3 : "hussein" ≠ "") by discriminate.
  destruct (create_lookup_failure "as23df" "ME" "4674" "hussein" 4674
              "peer unreachable" unreachable H0 H1 H2 H3 eq_refl eq_refl)
    as (Hr & _ & Hl).
  split; [exact Hr | exact Hl].
Defined.

Lemma create_record_write_failure_witness :
  (strconv.Atoi "4674" = Ok 4674
   ∧ outcomeAt 0 (Fabric.scripted [None; Some "disk full"]) = None
   ∧ ledger (Fabric.scripted [None; Some "disk full"]) !! "as23df" = None
   ∧ outcomeAt 1 (Fabric.scripted [None; Some "disk full"]) = Some "disk full")
  ∧ (initCert ["as23df"; "ME"; "4674"; "hussein"]
              (Fabric.scripted [None; Some "disk full"])).1
    = shim_Error "disk full"
  ∧ ledger (initCert ["as23df"; "ME"; "4674"; "hussein"]
                     (Fabric.scripted [None; Some "disk full"])).2
    = ∅.
Proof.
  split; [repeat split|].
  assert (H0 : "as23df" ≠ "") by discriminate.
  assert (H1 : "ME" ≠ "") by discriminate.
  assert (H2 : "4674" ≠ "") by discriminate.
  assert (H3 : "hussein" ≠ "") by discriminate.
  destruct (create_record_write_failure "as23df" "ME" "4674" "hussein" 4674
              "disk full" (Fabric.scripted [None; Some "disk full"])
              H0 H1 H2 H3 eq_refl eq_refl eq_refl eq_refl)
    as (Hr & _ & Hl).
  split; [exact Hr | exact Hl].
Defined.

Lemma create_key_failure_witness :
  (strconv.Atoi "4674" = Ok 4674
   ∧ ledger Fabric.genesis !! ("a" +:+ nul +:+ "b") = None
   ∧ CreateCompositeKey "degree~name" [ToLower "ME"; "a" +:+ nul +:+ "b"]
     = Err "invalid composite key attribute")
  ∧ (initCert ["a" +:+ nul +:+ "b"; "ME"; "4674"; "hussein"] Fabric.genesis).1
    = shim_Error "invalid composite key attribute"
  ∧ is_Some (ledger (initCert ["a" +:+ nul +:+ "b"; "ME"; "4674"; "hussein"]
                              Fabric.genesis).2 !! ("a" +:+ nul +:+ "b")).
Proof.
  split; [repeat split|].
  assert (H0 : "a" +:+ nul +:+ "b" ≠ "") by discriminate.
  assert (H1 : "ME" ≠ "") by discriminate.
  assert (H2 : "4674" ≠ "") by discriminate.
  assert (H3 : "hussein" ≠ "") by discriminate.
  assert (Hk : CreateCompositeKey "degree~name"
                 [ToLower "ME"; "a" +:+ nul +:+ "b"]
               = Err "invalid composite key attribute")
    by (vm_compute; reflexivity).
  destruct (create_key_failure ("a" +:+ nul +:+ "b") "ME" "4674" "hussein" 4674
              "invalid composite key attribute" Fabric.genesis
              H0 H1 H2 H3 eq_refl eq_refl eq_refl eq_refl Hk)
    as (Hr & _ & Hl).
  split; [exact Hr|]. rewrite Hl, lookup_insert_eq. eexists. reflexivity.
Defined.

Lemma create_keeps_entries_witness :
  (ledger enrolled !! "as23df" = Some husseinRecord
   ∧ CreateCompositeKey "degree~name" [ToLower "PhD"; "zz99"] ≠ Ok "as23df")
  ∧ ledger (initCert ["zz99"; "PhD"; "12"; "Amal"] enrolled).2 !! "as23df"
    = Some husseinRecord.
Proof.
  assert (Hv : ledger enrolled !! "as23df" = Some husseinRecord)
    by (vm_compute; reflexivity).
  assert (Hk : CreateCompositeKey "degree~name" [ToLower "PhD"; "zz99"]
               ≠ Ok "as23df") by (vm_compute; discriminate).
  split; [exact (conj Hv Hk)|].
  destruct (create_keeps_entries ["zz99"; "PhD"; "12"; "Amal"] enrolled) as [_ H].
  exact (H "as23df" husseinRecord Hv Hk).
Defined.

Lemma create_case_insensitive_witness :
  (strings.isASCII "ME" = true ∧ strings.isASCII "Hussein" = true)
  ∧ initCert ["as23df"; "me"; "4674"; "hussein"] Fabric.genesis
    = initCert ["as23df"; "ME"; "4674"; "Hussein"] Fabric.genesis.
Proof.
  split; [split; reflexivity|].
  exact (create_case_insensitive "as23df" "ME" "4674" "Hussein" Fabric.genesis
           eq_refl eq_refl).
Defined.

Lemma create_accepts_every_int_witness :
  (strconv.minInt ≤ -42 ≤ strconv.maxInt
   ∧ ledger Fabric.genesis !! "as23df" = None
   ∧ calm 3 Fabric.genesis
   ∧ CreateCompositeKey "degree~name" [ToLower "ME"; "as23df"] = Ok husseinIndexKey)
  ∧ (initCert ["as23df"; "ME"; "-42"; "hussein"] Fabric.genesis).1
    = shim_Success None.
Proof.
  assert (Hn : strconv.minInt ≤ -42 ≤ strconv.maxInt)
    by (unfold strconv.minInt, strconv.maxInt, strconv.intSize; lia).
  assert (Hc : calm 3 Fabric.genesis) by (unfold calm; vm_compute; constructor).
  assert (H0 : "as23df" ≠ "") by discriminate.
  assert (H1 : "ME" ≠ "") by discriminate.
  assert (H3 : "hussein" ≠ "") by discriminate.
  split; [repeat split; try exact Hc; apply Hn|].
  exact (proj1 (create_accepts_every_int "as23df" "ME" "hussein" (-42)
                  husseinIndexKey Fabric.genesis Hn H0 H1 H3 eq_refl Hc eq_refl)).
Defined.

Lemma read_only_witness :
  (length ["as23df"; "zz99"] ≠ 1%nat
   ∧ readCert ["as23df"; "zz99"] enrolled
     = (shim_Error
          "Incorrect number of arguments. Expecting cert of the student to query",
        enrolled))
  ∧ (length ["as23df"] = 1%nat
     ∧ journal (readCert ["as23df"] enrolled).2
       = journal enrolled ++ [EvGetState "as23df"]).
Proof.
  split.
  - assert (H : length ["as23df"; "zz99"] ≠ 1%nat) by (cbn; lia).
    split; [exact H|].
    exact (proj1 (read_only ["as23df"; "zz99"] enrolled) H).
  - split; [reflexivity|].
    exact (proj1 (proj2 (read_only ["as23df"] enrolled)) eq_refl).
Defined.

Lemma query_all_or_nothing_witness :
  (getQueryResultForQueryString (selector "hussein") enrolled).1
  = Ok ("[" +:+ element (mkKV "as23df" husseinRecord) +:+ "]")
  ∧ outcome enrolled = None
  ∧ "[" +:+ element (mkKV "as23df" husseinRecord) +:+ "]"
    = "[" +:+ commaJoin (map element (runQuery (selector "hussein")
                                               (ledger enrolled))) +:+ "]".
Proof.
  assert (H : (getQueryResultForQueryString (selector "hussein") enrolled).1
              = Ok ("[" +:+ element (mkKV "as23df" husseinRecord) +:+ "]"))
    by (vm_compute; reflexivity).
  exact (conj H (query_all_or_nothing (selector "hussein") enrolled _ H)).
Defined.

Lemma query_failure_verbatim_witness :
  (calm 1 flaky
   ∧ (0 < length (runQuery (selector (ToLower "Hussein")) (ledger flaky)))%nat
   ∧ outcomeAt 1 flaky = Some "stream broken")
  ∧ (queryCertByOwner ["Hussein"] flaky).1 = shim_Error "stream broken".
Proof.
  assert (Hc : calm 1 flaky) by (unfold calm; vm_compute; repeat constructor).
  assert (Hi : (0 < length (runQuery (selector (ToLower "Hussein"))
                                     (ledger flaky)))%nat)
    by (vm_compute; lia).
  split; [split; [exact Hc | split; [exact Hi | reflexivity]]|].
  destruct (query_failure_verbatim "Hussein" [] flaky "stream broken") as [_ H].
  exact (H 0%nat Hc Hi eq_refl).
Defined.

Lemma invoke_unknown_function_witness :
  ("InitCert" ≠ "initCert" ∧ "InitCert" ≠ "readCert"
   ∧ "InitCert" ≠ "queryCertByOwner")
  ∧ (Invoke "InitCert" ["as23df"; "ME"; "4674"; "hussein"] Fabric.genesis).1
    = shim_Error "Received unknown function invocation"
  ∧ ledger (Invoke "InitCert" ["as23df"; "ME"; "4674"; "hussein"]
                   Fabric.genesis).2 = ∅.
Proof.
  assert (H1 : "InitCert" ≠ "initCert") by discriminate.
  assert (H2 : "InitCert" ≠ "readCert") by discriminate.
  assert (H3 : "InitCert" ≠ "queryCertByOwner") by discriminate.
  split; [exact (conj H1 (conj H2 H3))|].
  destruct (invoke_unknown_function "InitCert"
              ["as23df"; "ME"; "4674"; "hussein"] Fabric.genesis H1 H2 H3)
    as (Hr & Hl & _).
  split; [exact Hr | exact Hl].
Defined.

Lemma invoke_only_create_writes_witness :
  "queryCertByOwner" ≠ "initCert"
  ∧ ledger (Invoke "queryCertByOwner" ["hussein"] enrolled).2 = ledger enrolled
  ∧ writes (journal (Invoke "queryCertByOwner" ["hussein"] enrolled).2)
    = writes (journal enrolled).
Proof.
  assert (H : "queryCertByOwner" ≠ "initCert") by discriminate.
  split; [exact H|].
  exact (invoke_only_create_writes "queryCertByOwner" ["hussein"] enrolled H).
Defined.

Lemma answers_stable_witness :
  ("queryCertByOwner" ≠ "initCert"
   ∧ outcome enrolled = None
   ∧ outcome (Invoke "queryCertByOwner" ["hussein"] enrolled).2 = None)
  ∧ (readCert ["as23df"] (Invoke "queryCertByOwner" ["hussein"] enrolled).2).1
    = (readCert ["as23df"] enrolled).1.
Proof.
  assert (H : "queryCertByOwner" ≠ "initCert") by discriminate.
  split; [split; [exact H | split; reflexivity]|].
  destruct (answers_stable "queryCertByOwner" ["hussein"] "as23df" "x" []
              enrolled H) as [Hread _].
  exact (Hread eq_refl eq_refl).
Defined.

Lemma response_shape_witness :
  ("readCert" = "readCert" ∨ "readCert" = "queryCertByOwner")
  ∧ Status (Invoke "readCert" ["as23df"] enrolled).1 = OK
  ∧ is_Some (Payload (Invoke "readCert" ["as23df"] enrolled).1).
Proof.
  assert (Hf : "readCert" = "readCert" ∨ "readCert" = "queryCertByOwner")
    by (left; reflexivity).
  assert (Hs : Status (Invoke "readCert" ["as23df"] enrolled).1 = OK)
    by (vm_compute; reflexivity).
  split; [exact Hf|]. split; [exact Hs|].
  destruct (response_shape "readCert" ["as23df"] enrolled) as (_ & _ & H).
  exact (H Hf Hs).
Defined.

End FurtherExamples.
